(** * load_data: bulk load of WPT run reports into a wide-column table

    A shallow embedding of [grid/load/bigtable/load_data.go] and the
    properties of its key derivation, value encoding, mutation batching,
    run enumeration, memory monitor and goroutine scheduling.

    Go strings are byte sequences; they are embedded as [string] and
    [[]byte(s)] is the identity.  [+:+] is string concatenation. *)

From Stdlib Require Import ZArith Lia Ascii DecimalString.
From stdpp Require Import base option list strings.

Local Open Scope string_scope.
Local Open Scope list_scope.
Local Open Scope Z_scope.

(** ** Time: the part of Go's [time] package that [runID] uses

    [run.CreatedAt.UTC().Format(time.RFC3339)] depends only on the instant,
    which is kept as seconds since the Unix epoch.  The layout
    [2006-01-02T15:04:05Z07:00] prints no fraction of a second, and the
    zone of a UTC time prints as [Z]. *)
Module Time.

Record Time := { unix : Z }.

Record Civil := {
  year : Z; month : Z; day : Z; hour : Z; minute : Z; second : Z
}.

(** Days since 1970-01-01 to (year, month, day) in the proleptic
    Gregorian calendar, by 400-year eras that start on 1 March. *)
Definition civil_of_days (z : Z) : Z * Z * Z :=
  let z := z + 719468 in
  let era := z / 146097 in
  let doe := z - era * 146097 in
  let yoe := (doe - doe / 1460 + doe / 36524 - doe / 146096) / 365 in
  let y := yoe + era * 400 in
  let doy := doe - (365 * yoe + yoe / 4 - yoe / 100) in
  let mp := (5 * doy + 2) / 153 in
  let d := doy - (153 * mp + 2) / 5 + 1 in
  let m := if mp <? 10 then mp + 3 else mp - 9 in
  (if m <=? 2 then y + 1 else y, m, d).

(** The inverse direction, used to write instants down by their date. *)
Definition days_of_civil (y m d : Z) : Z :=
  let y := if m <=? 2 then y - 1 else y in
  let era := y / 400 in
  let yoe := y - era * 400 in
  let doy := (153 * (if m >? 2 then m - 3 else m + 9) + 2) / 5 + d - 1 in
  let doe := yoe * 365 + yoe / 4 - yoe / 100 + doy in
  era * 146097 + doe - 719468.

Definition Date (y m d hh mm ss : Z) : Time :=
  {| unix := days_of_civil y m d * 86400 + hh * 3600 + mm * 60 + ss |}.

(** [t.UTC()]: the same instant, located in UTC. *)
Definition UTC (t : Time) : Time := t.

Definition civil (t : Time) : Civil :=
  let days := unix t / 86400 in
  let rem := unix t mod 86400 in
  let '(y, m, d) := civil_of_days days in
  {| year := y; month := m; day := d;
     hour := rem / 3600; minute := (rem mod 3600) / 60; second := rem mod 60 |}.

Definition itoa (n : Z) : string := NilZero.string_of_uint (N.to_uint (Z.to_N n)).

Fixpoint zeros (n : nat) : string :=
  match n with O => "" | S n => "0" +:+ zeros n end.

(** [appendInt(b, x, width)]: sign, then the decimal digits padded with
    zeros on the left up to [width]. *)
Definition appendInt (x : Z) (width : nat) : string :=
  let digits := itoa (Z.abs x) in
  (if x <? 0 then "-" else "") +:+
  zeros (width - String.length digits) +:+ digits.

Definition RFC3339 (t : Time) : string :=
  let c := civil t in
  appendInt (year c) 4 +:+ "-" +:+ appendInt (month c) 2 +:+ "-" +:+
  appendInt (day c) 2 +:+ "T" +:+ appendInt (hour c) 2 +:+ ":" +:+
  appendInt (minute c) 2 +:+ ":" +:+ appendInt (second c) 2 +:+ "Z".

End Time.

(** ** Data: the fields of [shared.TestRun] and of the [metrics] report
    types that the loader reads.  A pointer is an [option], [None] being
    nil: a [*string] is an [option string], and [report.Results], a
    [[]*metrics.TestResults], is a list of [option TestResults] (a JSON
    [null] element decodes to nil without error). *)

Record TestRun := {
  BrowserName : string;
  BrowserVersion : string;
  OSName : string;
  OSVersion : string;
  FullRevisionHash : string;
  CreatedAt : Time.Time;
  RawResultsURL : string
}.

Record SubTest := {
  Name : string;
  SubStatus : string;
  SubMessage : option string
}.

Record TestResults := {
  Test : string;
  Status : string;
  Message : option string;
  Subtests : list SubTest
}.

Record TestResultsReport := { Results : list (option TestResults) }.

(** ** Configuration: the package-level variables and flag defaults *)

Definition numConcurrentRuns : Z := 100.
Definition maxMutationsPerBatch : nat := 100 * 1000.
Definition maxHeapAlloc : Z := 45000000000.
Definition monitorSleep : Z := 2 * 1000000000.
Definition outputBTFamily_default : string := "runs".

(** ** Keys *)

Definition runID (run : TestRun) : string :=
  BrowserName run +:+ "-" +:+ BrowserVersion run +:+ "-" +:+ OSName run +:+ "-" +:+
  OSVersion run +:+ "@" +:+ FullRevisionHash run +:+ "#" +:+
  Time.RFC3339 (Time.UTC (CreatedAt run)).

Definition rowID (res : TestResults) (sub : option SubTest) : string :=
  match sub with
  | None => Test res
  | Some sub => Test res +:+ ":" +:+ Name sub
  end.

Definition colID (run : TestRun) : string := runID run.

(** ** Log lines, one constructor per [log.Printf] / [log.Fatal] site *)

Inductive LogLine :=
| FatalOutOfMemory
| InfoMonitor (heapAlloc : Z)
| FatalError (err : string)
| WarnLoadFailed (url : string) (run : TestRun)
| WarnNonOKStatus (code : Z) (url : string) (run : TestRun)
| WarnReadFailed (url : string) (run : TestRun)
| WarnUnmarshalFailed (url : string) (run : TestRun)
| WarnEmptyReport (id : string) (url : string)
| InfoGathering (n : nat)
| ErroSomeWritesFailed (errs : list string)
| ErroBulkWriteFailed (err : string)
| InfoBulkWriteSuccess (n : nat) (row : string)
| InfoFinished (n : nat).

Definition is_warning (l : LogLine) : bool :=
  match l with
  | WarnLoadFailed _ _ | WarnNonOKStatus _ _ _ | WarnReadFailed _ _
  | WarnUnmarshalFailed _ _ | WarnEmptyReport _ _ => true
  | _ => false
  end.

(** ** The row encoder: the loop over [report.Results] (lines 179-204)

    A [SetCall] holds the arguments of one invocation of the closure
    [set]; [result_calls] lists the invocations made for one result, in
    order. *)

Definition Timestamp := Z.

Record SetCall := {
  c_row : string;
  c_family : string;
  c_column : string;
  c_ts : Timestamp;
  c_value : string
}.

(** [m != nil && *m != ""], giving the dereferenced message. *)
Definition nonEmpty (m : option string) : option string :=
  match m with
  | Some s => if decide (s = "") then None else Some s
  | None => None
  end.

Section Encoder.
Variable family : string.
Variable run : TestRun.
Variable ts : Timestamp.

Definition cell (res : TestResults) (value : string) : SetCall :=
  {| c_row := rowID res None; c_family := family; c_column := colID run;
     c_ts := ts; c_value := value |}.

Definition sub_call (res : TestResults) (sub : SubTest) : SetCall :=
  match nonEmpty (Message res) with
  | Some msg =>
      match nonEmpty (SubMessage sub) with
      | Some smsg =>
          cell res (Status res +:+ "#" +:+ msg +:+ "$" +:+ SubStatus sub +:+ "#" +:+ smsg)
      | None => cell res (Status res +:+ "#" +:+ msg +:+ "$" +:+ SubStatus sub)
      end
  | None =>
      match nonEmpty (SubMessage sub) with
      | Some smsg => cell res (Status res +:+ "$" +:+ SubStatus sub +:+ "#" +:+ smsg)
      | None => cell res (Status res +:+ "$" +:+ SubStatus sub)
      end
  end.

Definition result_calls (res : TestResults) : list SetCall :=
  if decide (length (Subtests res) = 0%nat) then
    match nonEmpty (Message res) with
    | Some msg => [cell res (Status res +:+ "#" +:+ msg)]
    | None => [cell res (Status res)]
    end
  else sub_call res <$> Subtests res.

(** The invocations made by the loop over the results: it stops at a nil
    element, where [len(res.Subtests)] panics (line 180). *)
Fixpoint results_calls (results : list (option TestResults)) : list SetCall :=
  match results with
  | [] => []
  | None :: _ => []
  | Some res :: results => result_calls res ++ results_calls results
  end.

Definition report_calls (report : TestResultsReport) : list SetCall :=
  results_calls (Results report).

End Encoder.

(** ** The batch accumulator: the closure [set] and the final flush

    [bigtable.NewMutation()] returns a pointer; [muts] holds pointers and
    [mut.Set] runs after the pointer was appended, so the heap of
    mutations is part of the state.  An address is an index into [heap]. *)

Inductive Op := SetCell (family column : string) (ts : Timestamp) (value : string).

Definition Mutation := list Op.

Record BulkCall := { bc_rows : list string; bc_muts : list Mutation }.

Record TaskState := {
  muts : list nat;
  rows : list string;
  heap : list Mutation;
  calls : list BulkCall;
  logs : list LogLine
}.

Definition with_batch (ms : list nat) (rs : list string) (st : TaskState) : TaskState :=
  {| muts := ms; rows := rs; heap := heap st; calls := calls st; logs := logs st |}.

Definition with_heap (h : list Mutation) (st : TaskState) : TaskState :=
  {| muts := muts st; rows := rows st; heap := h; calls := calls st; logs := logs st |}.

Definition emit (call : BulkCall) (line : LogLine) (st : TaskState) : TaskState :=
  {| muts := muts st; rows := rows st; heap := heap st;
     calls := calls st ++ [call]; logs := logs st ++ [line] |}.

Definition deref (h : list Mutation) (p : nat) : Mutation := default [] (h !! p).

Section Task.
(** The configured batch size ([maxMutationsPerBatch] in the source). *)
Variable maxMutations : nat.
Variable family : string.
(** [tbl.ApplyBulk(ctx, rs, ms)]: per-row errors and the call's error. *)
Variable ApplyBulk : list string → list Mutation → list string * option string.
(** [http.Get(url)]: [None] is a transport error; otherwise the status
    code and the outcome of [ioutil.ReadAll(resp.Body)]. *)
Variable http_Get : string → option (Z * option string).
Variable json_Unmarshal : string → option TestResultsReport.

(** Lines 158-167 and 207-216: one bulk write of the pending batch and
    its log line.  [None] is the run-time panic of [rs[0]] on an empty
    slice. *)
Definition bulk_write (st : TaskState) : option TaskState :=
  let rs := rows st in
  let ms := deref (heap st) <$> muts st in
  let '(errs, err) := ApplyBulk rs ms in
  line ← (if decide (0 < length errs)%nat then Some (ErroSomeWritesFailed errs)
          else match err with
               | Some e => Some (ErroBulkWriteFailed e)
               | None => r0 ← rs !! 0%nat; Some (InfoBulkWriteSuccess (length ms) r0)
               end);
  Some (emit {| bc_rows := rs; bc_muts := ms |} line st).

Definition set (c : SetCall) (st : TaskState) : option TaskState :=
  let mut := length (heap st) in
  let st := with_heap (heap st ++ [[]]) st in
  st ← (if decide (length (muts st) = maxMutations)
        then with_batch [] [] <$> bulk_write st
        else Some st);
  let st := with_batch (muts st ++ [mut]) (rows st ++ [c_row c]) st in
  Some (with_heap
          (alter (λ ops, ops ++ [SetCell (c_family c) (c_column c) (c_ts c) (c_value c)])
                 mut (heap st)) st).

Fixpoint set_all (cs : list SetCall) (st : TaskState) : option TaskState :=
  match cs with
  | [] => Some st
  | c :: cs => st ← set c st; set_all cs st
  end.

(** Lines 179-204: the loop over [report.Results], each result passing its
    cells to [set].  [None] is a run-time panic: that of [set], or the nil
    dereference of [len(res.Subtests)] on a nil element. *)
Fixpoint for_results (run : TestRun) (ts : Timestamp)
    (results : list (option TestResults)) (st : TaskState) : option TaskState :=
  match results with
  | [] => Some st
  | None :: _ => None
  | Some res :: results =>
      st ← set_all (result_calls family run ts res) st;
      for_results run ts results st
  end.

(** Lines 206-217. *)
Definition finish (st : TaskState) : option TaskState :=
  if decide (0 < length (muts st))%nat then bulk_write st else Some st.

Definition empty_state (ls : list LogLine) : TaskState :=
  {| muts := []; rows := []; heap := []; calls := []; logs := ls |}.

(** The body of the goroutine between [sem.Acquire] and the deferred
    [sem.Release] (lines 126-217). *)
Definition task_body (ts : Timestamp) (run : TestRun) : option TaskState :=
  match http_Get (RawResultsURL run) with
  | None => Some (empty_state [WarnLoadFailed (RawResultsURL run) run])
  | Some (code, body) =>
      if decide (code ≠ 200)
      then Some (empty_state [WarnNonOKStatus code (RawResultsURL run) run])
      else match body with
      | None => Some (empty_state [WarnReadFailed (RawResultsURL run) run])
      | Some data =>
          match json_Unmarshal data with
          | None => Some (empty_state [WarnUnmarshalFailed (RawResultsURL run) run])
          | Some report =>
              if decide (length (Results report) = 0%nat)
              then Some (empty_state [WarnEmptyReport (runID run) (RawResultsURL run)])
              else
                st ← for_results run ts (Results report)
                       (empty_state [InfoGathering (length (Results report))]);
                finish st
          end
      end
  end.

End Task.

(** ** The memory monitor (lines 51-62)

    [runtime.ReadMemStats] is the environment's: the loop is run against
    the sequence of [HeapAlloc] samples it reads, one per tick. *)

Inductive MonitorEvent :=
| EvLog (line : LogLine)
| EvSleep (nanoseconds : Z)
| EvFatal (line : LogLine).

Inductive TickResult :=
| TickFatal (line : LogLine)
| TickContinue (line : LogLine) (sleep : Z).

(** One iteration of the [for] loop. *)
Definition monitor_tick (heapAlloc : Z) : TickResult :=
  if decide (heapAlloc > maxHeapAlloc) then TickFatal FatalOutOfMemory
  else TickContinue (InfoMonitor heapAlloc) monitorSleep.

(** The loop over the samples read so far: the events it produced, and
    whether the process is still alive ([log.Fatal] exits). *)
Fixpoint monitor (samples : list Z) : list MonitorEvent * bool :=
  match samples with
  | [] => ([], true)
  | h :: samples =>
      match monitor_tick h with
      | TickFatal line => ([EvFatal line], false)
      | TickContinue line d =>
          let '(evs, alive) := monitor samples in
          (EvLog line :: EvSleep d :: evs, alive)
      end
  end.

(** ** Run enumeration (lines 64-82)

    The datastore client is the environment's: [client.Run] maps a query
    to the outcomes of the successive [it.Next] calls; an exhausted
    iterator answers [iterator.Done]. *)

Inductive Direction := Ascending | Descending.

Record Query := { q_kind : string; q_order : list (string * Direction) }.

Definition NewQuery (kind : string) : Query := {| q_kind := kind; q_order := [] |}.

(** [q.Order(fieldName)]: a leading [-] asks for descending order. *)
Definition Order (fieldName : string) (q : Query) : Query :=
  let o := match fieldName with
           | String "-"%char rest => (rest, Descending)
           | _ => (fieldName, Ascending)
           end in
  {| q_kind := q_kind q; q_order := q_order q ++ [o] |}.

Definition Key := Z.

Inductive NextResult :=
| NextItem (key : Key) (run : TestRun)
| NextDone
| NextError (err : string).

Inductive Fatal (A : Type) :=
| Returned (a : A)
| LogFatal (err : string).
Arguments Returned {A} a.
Arguments LogFatal {A} err.

Fixpoint getRuns_loop (it : list NextResult) (keys : list Key) (testRuns : list TestRun)
  : Fatal (list Key * list TestRun) :=
  match it with
  | [] => Returned (keys, testRuns)
  | NextDone :: _ => Returned (keys, testRuns)
  | NextError err :: _ => LogFatal err
  | NextItem key testRun :: it => getRuns_loop it (keys ++ [key]) (testRuns ++ [testRun])
  end.

(** The queries issued, and the outcome. *)
Definition getRuns (client_Run : Query → list NextResult)
  : list Query * Fatal (list Key * list TestRun) :=
  let query := Order "CreatedAt" (NewQuery "TestRun") in
  let it := client_Run query in
  ([query], getRuns_loop it [] []).

(** ** The weighted semaphore of [golang.org/x/sync/semaphore] *)

Inductive Tid := Main | Monitor | Worker (i : nat).

Record Weighted := { size : Z; cur : Z; waiters : list (Tid * Z) }.

Definition NewWeighted (n : Z) : Weighted := {| size := n; cur := 0; waiters := [] |}.

Inductive AcquireResult :=
| Acquired (s : Weighted)
| Queued (s : Weighted)
| Doomed.

(** [s.Acquire(ctx, n)] with a context that is never cancelled: granted at
    once when [n] units are free and nobody waits; never granted when
    [n > size]; otherwise queued first-in first-out. *)
Definition Acquire (who : Tid) (n : Z) (s : Weighted) : AcquireResult :=
  if decide (size s - cur s >= n ∧ length (waiters s) = 0%nat)
  then Acquired {| size := size s; cur := cur s + n; waiters := waiters s |}
  else if decide (n > size s) then Doomed
  else Queued {| size := size s; cur := cur s; waiters := waiters s ++ [(who, n)] |}.

(** [notifyWaiters]: grant from the front of the queue while it fits. *)
Fixpoint notifyWaiters (sz c : Z) (ws : list (Tid * Z)) : Z * list (Tid * Z) * list Tid :=
  match ws with
  | [] => (c, [], [])
  | (who, n) :: ws' =>
      if decide (sz - c < n) then (c, ws, [])
      else let '(c', ws'', woken) := notifyWaiters sz (c + n) ws' in
           (c', ws'', who :: woken)
  end.

(** [s.Release(n)]: [None] is the panic on releasing more than held. *)
Definition Release (n : Z) (s : Weighted) : option (Weighted * list Tid) :=
  let c := cur s - n in
  if decide (c < 0) then None
  else let '(c', ws, woken) := notifyWaiters (size s) c (waiters s) in
       Some ({| size := size s; cur := c'; waiters := ws |}, woken).

(** ** The process: [main], the monitor and one goroutine per run *)

Record Env := {
  e_maxMutations : nat;
  e_numConcurrentRuns : Z;
  e_family : string;
  (** [datastore.NewClient] and [bigtable.NewClient]: the error, if any *)
  e_dsClientErr : option string;
  e_btClientErr : option string;
  (** [bigtable.Now()] at the k-th reading of the clock *)
  e_clock : nat → Timestamp;
  (** [HeapAlloc] at the k-th tick of the monitor *)
  e_heapAlloc : nat → Z;
  e_client_Run : Query → list NextResult;
  e_http_Get : string → option (Z * option string);
  e_json_Unmarshal : string → option TestResultsReport;
  e_ApplyBulk : list string → list Mutation → list string * option string
}.

Inductive ProcStatus := Running | Exited | Fataled | Panicked.

Inductive MainPC :=
| MStart                                   (* lines 101-104 *)
| MClients                                 (* lines 106-116 *)
| MNow                                     (* line 117 *)
| MGetRuns (ts : Timestamp)                (* line 119 *)
| MSpawn (ts : Timestamp) (runs rest : list TestRun)   (* lines 120-219 *)
| MDrain (runs : list TestRun)             (* line 221, waiting *)
| MReport (runs : list TestRun)            (* line 222 *)
| MReturned.

Inductive TaskPC :=
| TSpawned                                 (* goroutine created *)
| TWaiting                                 (* line 123, waiting *)
| THolding                                 (* lines 126-217 to run *)
| TReleasing (st : TaskState)              (* deferred line 124 to run *)
| TDone (st : TaskState).

Record Task := { t_run : TestRun; t_ts : Timestamp; t_pc : TaskPC }.

Record Proc := {
  p_status : ProcStatus;
  p_main : MainPC;
  p_sem : Weighted;
  p_tasks : list Task;
  p_clock_reads : nat;
  p_monitor : option nat;
  p_logs : list LogLine
}.

Definition init : Proc :=
  {| p_status := Running; p_main := MStart; p_sem := NewWeighted 0; p_tasks := [];
     p_clock_reads := 0; p_monitor := None; p_logs := [] |}.

Definition set_status (x : ProcStatus) (p : Proc) : Proc :=
  {| p_status := x; p_main := p_main p; p_sem := p_sem p; p_tasks := p_tasks p;
     p_clock_reads := p_clock_reads p; p_monitor := p_monitor p; p_logs := p_logs p |}.

Definition set_main (x : MainPC) (p : Proc) : Proc :=
  {| p_status := p_status p; p_main := x; p_sem := p_sem p; p_tasks := p_tasks p;
     p_clock_reads := p_clock_reads p; p_monitor := p_monitor p; p_logs := p_logs p |}.

Definition set_sem (x : Weighted) (p : Proc) : Proc :=
  {| p_status := p_status p; p_main := p_main p; p_sem := x; p_tasks := p_tasks p;
     p_clock_reads := p_clock_reads p; p_monitor := p_monitor p; p_logs := p_logs p |}.

Definition set_tasks (x : list Task) (p : Proc) : Proc :=
  {| p_status := p_status p; p_main := p_main p; p_sem := p_sem p; p_tasks := x;
     p_clock_reads := p_clock_reads p; p_monitor := p_monitor p; p_logs := p_logs p |}.

Definition set_clock_reads (x : nat) (p : Proc) : Proc :=
  {| p_status := p_status p; p_main := p_main p; p_sem := p_sem p; p_tasks := p_tasks p;
     p_clock_reads := x; p_monitor := p_monitor p; p_logs := p_logs p |}.

Definition set_monitor (x : option nat) (p : Proc) : Proc :=
  {| p_status := p_status p; p_main := p_main p; p_sem := p_sem p; p_tasks := p_tasks p;
     p_clock_reads := p_clock_reads p; p_monitor := x; p_logs := p_logs p |}.

Definition add_log (line : LogLine) (p : Proc) : Proc :=
  {| p_status := p_status p; p_main := p_main p; p_sem := p_sem p; p_tasks := p_tasks p;
     p_clock_reads := p_clock_reads p; p_monitor := p_monitor p;
     p_logs := p_logs p ++ [line] |}.

Definition fatal (line : LogLine) (p : Proc) : Proc :=
  set_status Fataled (add_log line p).

Definition set_pc (pc : TaskPC) (t : Task) : Task :=
  {| t_run := t_run t; t_ts := t_ts t; t_pc := pc |}.

(** A granted waiter resumes after its [Acquire]. *)
Definition wake (who : Tid) (p : Proc) : Proc :=
  match who with
  | Main => match p_main p with
            | MDrain runs => set_main (MReport runs) p
            | _ => p
            end
  | Worker j => set_tasks (alter (set_pc THolding) j (p_tasks p)) p
  | Monitor => p
  end.

Definition wake_all (woken : list Tid) (p : Proc) : Proc := foldr wake p woken.

Definition step_main (env : Env) (p : Proc) : option Proc :=
  match p_main p with
  | MStart => Some (set_main MClients (set_monitor (Some 0%nat) p))
  | MClients =>
      match e_dsClientErr env with
      | Some err => Some (fatal (FatalError err) p)
      | None =>
          match e_btClientErr env with
          | Some err => Some (fatal (FatalError err) p)
          | None => Some (set_main MNow p)
          end
      end
  | MNow =>
      Some (set_main (MGetRuns (e_clock env (p_clock_reads p)))
              (set_clock_reads (S (p_clock_reads p)) p))
  | MGetRuns ts =>
      match (getRuns (e_client_Run env)).2 with
      | LogFatal err => Some (fatal (FatalError err) p)
      | Returned (_, runs) =>
          Some (set_main (MSpawn ts runs runs)
                  (set_sem (NewWeighted (e_numConcurrentRuns env)) p))
      end
  | MSpawn ts runs (run :: rest) =>
      Some (set_main (MSpawn ts runs rest)
              (set_tasks (p_tasks p ++ [{| t_run := run; t_ts := ts; t_pc := TSpawned |}]) p))
  | MSpawn ts runs [] =>
      match Acquire Main (e_numConcurrentRuns env) (p_sem p) with
      | Acquired s => Some (set_main (MReport runs) (set_sem s p))
      | Queued s => Some (set_main (MDrain runs) (set_sem s p))
      | Doomed => None
      end
  | MDrain _ => None
  | MReport runs =>
      Some (set_status Exited (set_main MReturned (add_log (InfoFinished (length runs)) p)))
  | MReturned => None
  end.

Definition step_monitor (env : Env) (p : Proc) : option Proc :=
  k ← p_monitor p;
  match monitor_tick (e_heapAlloc env k) with
  | TickFatal line => Some (fatal line p)
  | TickContinue line _ => Some (set_monitor (Some (S k)) (add_log line p))
  end.

Definition run_task (env : Env) (t : Task) : option TaskState :=
  task_body (e_maxMutations env) (e_family env) (e_ApplyBulk env) (e_http_Get env)
    (e_json_Unmarshal env) (t_ts t) (t_run t).

Definition set_task (i : nat) (pc : TaskPC) (p : Proc) : Proc :=
  set_tasks (alter (set_pc pc) i (p_tasks p)) p.

Definition step_worker (env : Env) (i : nat) (p : Proc) : option Proc :=
  t ← p_tasks p !! i;
  match t_pc t with
  | TSpawned =>
      match Acquire (Worker i) 1 (p_sem p) with
      | Acquired s => Some (set_task i THolding (set_sem s p))
      | Queued s => Some (set_task i TWaiting (set_sem s p))
      | Doomed => Some (set_task i TWaiting p)
      end
  | TWaiting => None
  | THolding =>
      match run_task env t with
      | None => Some (set_status Panicked p)
      | Some st => Some (set_task i (TReleasing st) p)
      end
  | TReleasing st =>
      match Release 1 (p_sem p) with
      | None => Some (set_status Panicked p)
      | Some (s, woken) => Some (wake_all woken (set_task i (TDone st) (set_sem s p)))
      end
  | TDone _ => None
  end.

(** One step of thread [who]; [None] when it cannot move.  Nothing moves
    once the process is over: [main] returned, [log.Fatal], or a panic. *)
Definition step (env : Env) (who : Tid) (p : Proc) : option Proc :=
  match p_status p with
  | Running =>
      match who with
      | Main => step_main env p
      | Monitor => step_monitor env p
      | Worker i => step_worker env i p
      end
  | _ => None
  end.

Fixpoint exec (env : Env) (sched : list Tid) (p : Proc) : option Proc :=
  match sched with
  | [] => Some p
  | who :: sched => p' ← step env who p; exec env sched p'
  end.

Definition reachable (env : Env) (p : Proc) : Prop := ∃ sched, exec env sched init = Some p.

Definition task_finished (t : Task) : bool :=
  match t_pc t with TDone _ => true | _ => false end.

(** [main] is past line 221: its [sem.Acquire(ctx, numConcurrentRuns)] returned. *)
Definition drained (p : Proc) : bool :=
  match p_main p with MReport _ | MReturned => true | _ => false end.

(** The cells a bulk call carries: row, family, column, timestamp, value. *)
Definition op_ts (o : Op) : Timestamp := match o with SetCell _ _ t _ => t end.

Definition call_timestamps (call : BulkCall) : list Timestamp :=
  op_ts <$> concat (bc_muts call).

Definition task_calls (t : Task) : list BulkCall :=
  match t_pc t with TReleasing st | TDone st => calls st | _ => [] end.

(** ** Specification-side definitions and invariants *)

(** A message that is missing or empty counts as absent. *)
Definition absent (m : option string) : bool :=
  match m with
  | None => true
  | Some s => bool_decide (s = "")
  end.

(** The value table of the specification, row by row: status, optional
    message, and the status and optional message of a sub-result when one
    is encoded. *)
Definition table_value (status : string) (message : option string)
    (sub : option (string * option string)) : string :=
  let MESSAGE := default "" message in
  match absent message, sub with
  | true, None => status
  | false, None => status +:+ "#" +:+ MESSAGE
  | true, Some (substatus, submessage) =>
      if absent submessage then status +:+ "$" +:+ substatus
      else status +:+ "$" +:+ substatus +:+ "#" +:+ default "" submessage
  | false, Some (substatus, submessage) =>
      if absent submessage then status +:+ "#" +:+ MESSAGE +:+ "$" +:+ substatus
      else status +:+ "#" +:+ MESSAGE +:+ "$" +:+ substatus +:+ "#" +:+ default "" submessage
  end.

(** The mutation built by the invocation [c] of [set], and the bulk call
    that carries a batch of invocations. *)
Definition mutation_of (c : SetCall) : Mutation :=
  [SetCell (c_family c) (c_column c) (c_ts c) (c_value c)].

Definition call_of (batch : list SetCall) : BulkCall :=
  {| bc_rows := c_row <$> batch; bc_muts := mutation_of <$> batch |}.

(** Row keys [rs] and mutations [ms] come, index by index, from the same
    consecutive invocations of [set] among [cs]. *)
Definition aligned (cs : list SetCall) (rs : list string) (ms : list Mutation) : Prop :=
  ∃ before batch after,
    cs = before ++ batch ++ after ∧ rs = c_row <$> batch ∧ ms = mutation_of <$> batch.

(** The accumulator after the batches [batches] were written and with the
    invocations [pending] not yet written. *)
Record acc_inv (maxMutations : nat) (batches : list (list SetCall))
    (pending : list SetCall) (st : TaskState) : Prop := {
  inv_rows : rows st = c_row <$> pending;
  inv_muts : deref (heap st) <$> muts st = mutation_of <$> pending;
  inv_addr : Forall (λ p, p < length (heap st))%nat (muts st);
  inv_calls : calls st = call_of <$> batches;
  inv_full : Forall (λ q, length q = maxMutations) batches;
  inv_bound : (length pending ≤ maxMutations)%nat
}.

(** Every cell of a mutation carries the timestamp [ts]. *)
Definition stamped (ts : Timestamp) (m : Mutation) : Prop := Forall (λ o, op_ts o = ts) m.

(** What holds of a task past its fetch whatever the batch size: no
    warning is logged, and every mutation allocated or written carries
    [ts]. *)
Record weak_inv (ts : Timestamp) (st : TaskState) : Prop := {
  w_logs : Forall (λ l, is_warning l = false) (logs st);
  w_heap : Forall (stamped ts) (heap st);
  w_calls : Forall (λ call, Forall (stamped ts) (bc_muts call)) (calls st)
}.

(** The five conditions under which a run is skipped: transport error,
    status other than 200, body read error, JSON decoding error, empty
    result list. *)
Definition skippable (http_Get : string → option (Z * option string))
    (json_Unmarshal : string → option TestResultsReport) (run : TestRun) : Prop :=
  let url := RawResultsURL run in
  http_Get url = None
  ∨ (∃ code body, http_Get url = Some (code, body) ∧ code ≠ 200)
  ∨ http_Get url = Some (200, None)
  ∨ (∃ data, http_Get url = Some (200, Some data) ∧ json_Unmarshal data = None)
  ∨ (∃ data report, http_Get url = Some (200, Some data) ∧
       json_Unmarshal data = Some report ∧ Results report = []).

(** A task carries the timestamp [ts0], on its closure and on every cell
    of every bulk call it issued. *)
Definition task_ok (ts0 : Timestamp) (t : Task) : Prop :=
  t_ts t = ts0 ∧
  Forall (λ call, Forall (λ x, x = ts0) (call_timestamps call)) (task_calls t).

(** The clock was read once, on line 117, and every task carries that
    reading. *)
Definition proc_inv (env : Env) (p : Proc) : Prop :=
  match p_main p with
  | MStart | MClients | MNow => p_clock_reads p = 0%nat ∧ p_tasks p = []
  | MGetRuns ts => p_clock_reads p = 1%nat ∧ ts = e_clock env 0 ∧ p_tasks p = []
  | MSpawn ts _ _ => p_clock_reads p = 1%nat ∧ ts = e_clock env 0
  | MDrain _ | MReport _ | MReturned => p_clock_reads p = 1%nat
  end ∧ Forall (task_ok (e_clock env 0)) (p_tasks p).

(** A task between its [Acquire] and its [Release] holds one unit. *)
Definition holding (t : Task) : bool :=
  match t_pc t with THolding | TReleasing _ => true | _ => false end.

(** The units held by the tasks. *)
Definition units (t : Task) : Z := if holding t then 1 else 0.

Fixpoint held (ts : list Task) : Z :=
  match ts with
  | [] => 0
  | t :: ts => units t + held ts
  end.

(** [main] holds the whole pool once line 221 has returned. *)
Definition main_holds (env : Env) (p : Proc) : Z :=
  match p_main p with
  | MReport _ | MReturned => e_numConcurrentRuns env
  | _ => 0
  end.

(** A queued waiter is a thread blocked in its [Acquire], for the amount
    it asked. *)
Definition waiter_ok (env : Env) (p : Proc) (w : Tid * Z) : Prop :=
  match w.1 with
  | Main => w.2 = e_numConcurrentRuns env ∧ ∃ runs, p_main p = MDrain runs
  | Worker j => w.2 = 1 ∧ ∃ t, p_tasks p !! j = Some t ∧ t_pc t = TWaiting
  | Monitor => False
  end.

(** The pool has its configured size from line 120 on; no task exists
    before. *)
Definition sem_sized (env : Env) (p : Proc) : Prop :=
  match p_main p with
  | MStart | MClients | MNow | MGetRuns _ => p_tasks p = []
  | _ => size (p_sem p) = e_numConcurrentRuns env
  end.

(** The semaphore accounts for the holders: [cur] is what the tasks and
    [main] hold, within [size], and the queue lists blocked threads once. *)
Record sem_inv (env : Env) (p : Proc) : Prop := {
  si_size : sem_sized env p;
  si_cur : cur (p_sem p) = held (p_tasks p) + main_holds env p;
  si_le : cur (p_sem p) ≤ size (p_sem p);
  si_waiters : Forall (waiter_ok env p) (waiters (p_sem p));
  si_nodup : NoDup (waiters (p_sem p)).*1
}.

(** ** Sample inputs *)

Definition run1 : TestRun :=
  {| BrowserName := "firefox"; BrowserVersion := "70"; OSName := "linux";
     OSVersion := "5.0"; FullRevisionHash := "abc123";
     CreatedAt := Time.Date 2020 1 1 0 0 0; RawResultsURL := "https://results/1.json" |}.

Definition run2 : TestRun :=
  {| BrowserName := "chrome"; BrowserVersion := "79"; OSName := "linux";
     OSVersion := "5.0"; FullRevisionHash := "abc123";
     CreatedAt := Time.Date 2020 1 2 0 0 0; RawResultsURL := "https://results/2.json" |}.

Definition report1 : TestResultsReport :=
  {| Results :=
       [ Some {| Test := "/a.html"; Status := "OK"; Message := None;
                 Subtests := [ {| Name := "s1"; SubStatus := "PASS";
                                  SubMessage := Some "fine" |} ] |};
         Some {| Test := "/b.html"; Status := "ERROR"; Message := Some "boom";
                 Subtests := [] |} ] |}.

Definition always_ok (rs : list string) (ms : list Mutation) : list string * option string :=
  ([], None).

(** Two runs; the first answers a report, the second a 404. *)
Definition env1 : Env :=
  {| e_maxMutations := maxMutationsPerBatch;
     e_numConcurrentRuns := numConcurrentRuns;
     e_family := outputBTFamily_default;
     e_dsClientErr := None;
     e_btClientErr := None;
     e_clock := λ k, 1000 + Z.of_nat k;
     e_heapAlloc := λ _, 1000;
     e_client_Run := λ _, [NextItem 1 run1; NextItem 2 run2];
     e_http_Get := λ url, if decide (url = "https://results/1.json")
                          then Some (200, Some "{}") else Some (404, Some "");
     e_json_Unmarshal := λ _, Some report1;
     e_ApplyBulk := always_ok |}.

Definition sample_call (row value : string) : SetCall :=
  {| c_row := row; c_family := "runs"; c_column := colID run1; c_ts := 7; c_value := value |}.

Definition sample_calls : list SetCall :=
  [sample_call "/a" "1"; sample_call "/b" "2"; sample_call "/c" "3";
   sample_call "/d" "4"; sample_call "/e" "5"].

(** Both tasks run to completion before [main] is granted the pool. *)
Definition full_schedule : list Tid :=
  [Main; Main; Main; Main; Main; Main; Worker 0; Worker 1; Worker 0; Worker 1;
   Worker 0; Worker 1; Main; Main].

(** Instants and their RFC 3339 form in UTC. *)
Definition reference_instants : list (Z * string) :=
  [(0, "1970-01-01T00:00:00Z");
   (-1, "1969-12-31T23:59:59Z");
   (86399, "1970-01-01T23:59:59Z");
   (86400, "1970-01-02T00:00:00Z");
   (951782400, "2000-02-29T00:00:00Z");
   (951868800, "2000-03-01T00:00:00Z");
   (1577836800, "2020-01-01T00:00:00Z");
   (2147483647, "2038-01-19T03:14:07Z");
   (4107542400, "2100-03-01T00:00:00Z");
   (-2203891200, "1900-03-01T00:00:00Z");
   (-62135596800, "0001-01-01T00:00:00Z");
   (253402300799, "9999-12-31T23:59:59Z");
   (1582934400, "2020-02-29T00:00:00Z");
   (1583020799, "2020-02-29T23:59:59Z");
   (1583020800, "2020-03-01T00:00:00Z");
   (978307199, "2000-12-31T23:59:59Z");
   (978307200, "2001-01-01T00:00:00Z");
   (68169600, "1972-02-29T00:00:00Z");
   (1709190489, "2024-02-29T07:08:09Z");
   (153260660279, "6826-08-21T05:37:59Z");
   (-33570050736, "0906-03-17T17:54:24Z");
   (-8294393557, "1707-03-01T01:47:23Z");
   (56007940085, "3744-10-27T01:08:05Z");
   (-14729913896, "1503-03-25T21:15:04Z");
   (167360163930, "7273-06-06T22:25:30Z");
   (67013448847, "4093-07-27T14:54:07Z");
   (238901723353, "9540-06-30T05:49:13Z");
   (-30247529690, "1011-06-30T20:25:10Z");
   (250653351343, "9912-11-21T10:55:43Z");
   (-28000446807, "1082-09-13T18:06:33Z");
   (-34662063340, "0871-08-08T17:04:20Z")].

(** ** Further definitions and invariants *)

(** The log line of one bulk write, by the outcome the store reports (lines
    161-167).  The success line names [rs[0]]; a bulk write of no row that
    succeeds panics there and leaves no line. *)
Definition outcome_line (ApplyBulk : list string → list Mutation → list string * option string)
    (call : BulkCall) : LogLine :=
  let '(errs, err) := ApplyBulk (bc_rows call) (bc_muts call) in
  if decide (0 < length errs)%nat then ErroSomeWritesFailed errs
  else match err with
       | Some e => ErroBulkWriteFailed e
       | None => InfoBulkWriteSuccess (length (bc_muts call)) (default "" (bc_rows call !! 0%nat))
       end.

(** The log of the accumulator: the lines it started with, then one line
    per bulk write. *)
Definition log_inv (ApplyBulk : list string → list Mutation → list string * option string)
    (ls : list LogLine) (st : TaskState) : Prop :=
  logs st = ls ++ (outcome_line ApplyBulk <$> calls st).

(** The character [c] does not occur in [s]. *)
Fixpoint free_of (c : ascii) (s : string) : bool :=
  match s with
  | EmptyString => true
  | String a s => negb (Ascii.eqb a c) && free_of c s
  end.

(** The fields of a run hold none of the separators that follow them in
    its identity. *)
Definition separator_free (run : TestRun) : Prop :=
  free_of "-" (BrowserName run) = true ∧ free_of "-" (BrowserVersion run) = true ∧
  free_of "-" (OSName run) = true ∧ free_of "@" (OSVersion run) = true ∧
  free_of "#" (FullRevisionHash run) = true.

(** The outcomes of [it.Next] for a list of entities. *)
Definition items_of (items : list (Key * TestRun)) : list NextResult :=
  uncurry NextItem <$> items.

(** The number of tasks between their [Acquire] and their [Release]. *)
Definition in_flight (p : Proc) : nat :=
  length (filter (λ t, holding t = true) (p_tasks p)).

(** A task that has not been granted its permit. *)
Definition idle (t : Task) : bool :=
  match t_pc t with TSpawned | TWaiting => true | _ => false end.



(** The heap sample a log line of the monitor reports. *)
Definition monitor_sample (line : LogLine) : option Z :=
  match line with InfoMonitor h => Some h | _ => None end.

(** After [k] ticks the log holds the first [k] samples, all within the
    threshold; the out-of-memory line is the monitor's last act. *)
Definition mon_inv (env : Env) (p : Proc) : Prop :=
  (p_main p = MStart → p_monitor p = None) ∧
  match p_monitor p with
  | None => omap monitor_sample (p_logs p) = [] ∧ FatalOutOfMemory ∉ p_logs p
  | Some k =>
      omap monitor_sample (p_logs p) = e_heapAlloc env <$> seq 0 k ∧
      (∀ j, (j < k)%nat → e_heapAlloc env j ≤ maxHeapAlloc) ∧
      (FatalOutOfMemory ∈ p_logs p →
       p_status p = Fataled ∧ e_heapAlloc env k > maxHeapAlloc)
  end.

(** A status followed by its message, when it has one. *)
Definition tagged (status : string) (m : option string) : string :=
  match m with
  | Some msg => status +:+ "#" +:+ msg
  | None => status
  end.

(** The statuses carry no separator and the message of the result no [$]. *)
Definition plain (res : TestResults) (sub : SubTest) : Prop :=
  free_of "#" (Status res) = true ∧ free_of "$" (Status res) = true ∧
  free_of "$" (default "" (nonEmpty (Message res))) = true ∧
  free_of "#" (SubStatus sub) = true.


(** A store that refuses every bulk write. *)
Definition always_failing (rs : list string) (ms : list Mutation)
  : list string * option string := ([], Some "unavailable").

(** [run1] fetched from another address. *)
(** A report whose second result is nil, as decoded from
    [{"results":[{...},null]}], and an environment that answers it. *)
Definition report_nil : TestResultsReport :=
  {| Results :=
       [ Some {| Test := "/a.html"; Status := "OK"; Message := None; Subtests := [] |};
         None ] |}.

Definition env_nil : Env :=
  {| e_maxMutations := maxMutationsPerBatch;
     e_numConcurrentRuns := numConcurrentRuns;
     e_family := outputBTFamily_default;
     e_dsClientErr := None;
     e_btClientErr := None;
     e_clock := λ k, 1000 + Z.of_nat k;
     e_heapAlloc := λ _, 1000;
     e_client_Run := λ _, [NextItem 1 run1];
     e_http_Get := λ _, Some (200, Some "{}");
     e_json_Unmarshal := λ _, Some report_nil;
     e_ApplyBulk := always_ok |}.

Definition run1_mirror : TestRun :=
  {| BrowserName := "firefox"; BrowserVersion := "70"; OSName := "linux";
     OSVersion := "5.0"; FullRevisionHash := "abc123";
     CreatedAt := Time.Date 2020 1 1 0 0 0; RawResultsURL := "https://mirror/1.json" |}.

Definition result_a : TestResults :=
  {| Test := "/a.html"; Status := "OK"; Message := None;
     Subtests := [ {| Name := "s1"; SubStatus := "PASS"; SubMessage := Some "fine" |} ] |}.

Definition sub_a : SubTest := {| Name := "s1"; SubStatus := "PASS"; SubMessage := Some "fine" |}.

(** Another test with the same outcome, its empty message spelled out. *)
Definition result_z : TestResults :=
  {| Test := "/z.html"; Status := "OK"; Message := Some ""; Subtests := [] |}.

Definition sub_z : SubTest := {| Name := "other"; SubStatus := "PASS"; SubMessage := Some "fine" |}.

(** * Properties *)

(** ** Keys and values *)

Lemma append_nonempty_neq (s t : string) : t ≠ "" → s ≠ s +:+ t.
Proof.
  intros Ht. induction s as [|a s IH]; cbn.
  - by destruct t.
  - intros [=]. done.
Qed.

Lemma rowID_sub_neq res sub : Test res ≠ rowID res (Some sub).
Proof. cbn. by apply append_nonempty_neq. Qed.

Section EncoderFacts.
Variable family : string.
Variable run : TestRun.
Variable ts : Timestamp.

Lemma sub_call_row res sub : c_row (sub_call family run ts res sub) = Test res.
Proof. unfold sub_call. by repeat case_match. Qed.

Lemma result_calls_row res c :
  c ∈ result_calls family run ts res → c_row c = Test res.
Proof.
  unfold result_calls. case_decide.
  - case_match; intros ->%list_elem_of_singleton; done.
  - intros (sub & -> & _)%list_elem_of_fmap. apply sub_call_row.
Qed.

Lemma sub_call_ts res sub : c_ts (sub_call family run ts res sub) = ts.
Proof. unfold sub_call. by repeat case_match. Qed.

Lemma result_calls_ts res c : c ∈ result_calls family run ts res → c_ts c = ts.
Proof.
  unfold result_calls. case_decide.
  - case_match; intros ->%list_elem_of_singleton; done.
  - intros (sub & -> & _)%list_elem_of_fmap. apply sub_call_ts.
Qed.

Lemma results_calls_elem results c :
  c ∈ results_calls family run ts results →
  ∃ res, Some res ∈ results ∧ c ∈ result_calls family run ts res.
Proof.
  induction results as [|[res|] results IH]; cbn; [by intros ?%elem_of_nil| |by intros ?%elem_of_nil].
  intros [Hc|Hc]%elem_of_app.
  - exists res. split; [by left|done].
  - destruct (IH Hc) as (res' & Hin & Hc'). exists res'. split; [by right|done].
Qed.

Lemma results_calls_present (rs : list TestResults) :
  results_calls family run ts (Some <$> rs) = rs ≫= result_calls family run ts.
Proof. induction rs as [|res rs IH]; [done|]. cbn. by rewrite IH. Qed.

Lemma report_calls_ts report :
  Forall (λ c, c_ts c = ts) (report_calls family run ts report).
Proof.
  apply Forall_forall. intros c (res & _ & Hc)%results_calls_elem.
  by eapply result_calls_ts.
Qed.

Lemma result_calls_nonempty res : result_calls family run ts res ≠ [].
Proof.
  unfold result_calls. case_decide as Hlen.
  - by case_match.
  - destruct (Subtests res); [done|]. done.
Qed.

Lemma report_calls_nonempty report :
  Results report ≠ [] → Forall is_Some (Results report) →
  report_calls family run ts report ≠ [].
Proof.
  unfold report_calls. destruct (Results report) as [|[res|] l]; [done| |].
  - intros _ _. cbn. pose proof (result_calls_nonempty res).
    by destruct (result_calls family run ts res).
  - intros _ [[? ?] _]%Forall_cons. done.
Qed.

Lemma nonEmpty_cases m :
  (nonEmpty m = None ∧ absent m = true) ∨
  (∃ s, nonEmpty m = Some s ∧ absent m = false ∧ m = Some s).
Proof.
  destruct m as [s|]; cbn; [|by left].
  case_decide.
  - left. by rewrite bool_decide_true.
  - right. exists s. by rewrite bool_decide_false.
Qed.

Lemma sub_call_value res sub :
  c_value (sub_call family run ts res sub) =
  table_value (Status res) (Message res) (Some (SubStatus sub, SubMessage sub)).
Proof.
  unfold sub_call, table_value.
  destruct (nonEmpty_cases (Message res)) as [[-> ->]|(m & -> & -> & ->)];
    destruct (nonEmpty_cases (SubMessage sub)) as [[-> ->]|(sm & -> & -> & ->)]; done.
Qed.

Lemma top_call_value res :
  c_value <$> match nonEmpty (Message res) with
              | Some msg => [cell family run ts res (Status res +:+ "#" +:+ msg)]
              | None => [cell family run ts res (Status res)]
              end = [table_value (Status res) (Message res) None].
Proof.
  unfold table_value.
  destruct (nonEmpty_cases (Message res)) as [[-> ->]|(m & -> & -> & ->)]; done.
Qed.
End EncoderFacts.

(** C1: every invocation of [set] made for a report has the test identifier
    of its parent result as row key, never the [test:subtest] form that
    [rowID] computes for a sub-result; for a report without nil element the
    invocations are those of all its results, in order; a result yields one
    cell without sub-results and one cell per sub-result otherwise, all on
    that row. *)
Theorem C1_row_key_is_test_identifier
    (family : string) (run : TestRun) (ts : Timestamp) (report : TestResultsReport) :
  Forall (λ c, ∃ res, Some res ∈ Results report ∧ c ∈ result_calls family run ts res ∧
                 c_row c = Test res ∧ ∀ sub, c_row c ≠ rowID res (Some sub))
         (report_calls family run ts report) ∧
  (∀ results, report_calls family run ts {| Results := Some <$> results |}
              = results ≫= result_calls family run ts) ∧
  ∀ res, c_row <$> result_calls family run ts res =
         replicate (length (Subtests res) `max` 1) (Test res).
Proof.
  split_and!.
  - apply Forall_forall. intros c (res & Hres & Hc)%results_calls_elem.
    exists res. split_and!; try done.
    + by eapply result_calls_row.
    + intros sub. erewrite result_calls_row by done. apply rowID_sub_neq.
  - intros results. apply results_calls_present.
  - intros res. unfold result_calls. case_decide as Hlen.
    + rewrite Hlen. by case_match.
    + replace (length (Subtests res) `max` 1)%nat with (length (Subtests res)) by lia.
      clear Hlen. induction (Subtests res) as [|sub subs IH]; [done|].
      cbn. by rewrite sub_call_row, <- IH.
Qed.

(** C2: the values encoded for a result are those of the six-row table of
    the specification: one value for a result without sub-results, one per
    sub-result otherwise, a missing and an empty message both absent. *)
Theorem C2_value_follows_table
    (family : string) (run : TestRun) (ts : Timestamp) (res : TestResults) :
  c_value <$> result_calls family run ts res =
  match Subtests res with
  | [] => [table_value (Status res) (Message res) None]
  | subs => (λ sub, table_value (Status res) (Message res)
                       (Some (SubStatus sub, SubMessage sub))) <$> subs
  end.
Proof.
  unfold result_calls. destruct (Subtests res) as [|sub subs] eqn:Hsubs.
  - rewrite decide_True by done. apply top_call_value.
  - rewrite decide_False by done. rewrite <- list_fmap_compose.
    apply list_fmap_ext. intros _ sub' _. apply sub_call_value.
Qed.

(** ** The batch accumulator *)

Section Acc.
Variable maxMutations : nat.
Variable ApplyBulk : list string → list Mutation → list string * option string.
Lemma deref_app_l h x p : (p < length h)%nat → deref (h ++ [x]) p = deref h p.
Proof. intros Hp. unfold deref. by rewrite lookup_app_l. Qed.

Lemma deref_fmap_app h x ps :
  Forall (λ p, p < length h)%nat ps → deref (h ++ [x]) <$> ps = deref h <$> ps.
Proof.
  intros Hps. apply Forall_fmap_ext_1. eapply Forall_impl; [exact Hps|].
  intros p Hp. by apply deref_app_l.
Qed.

Lemma deref_new h x : deref (h ++ [x]) (length h) = x.
Proof. unfold deref. by rewrite lookup_app_r, Nat.sub_diag. Qed.

Lemma alter_new (f : Mutation → Mutation) h x :
  alter f (length h) (h ++ [x]) = h ++ [f x].
Proof. rewrite <- (Nat.add_0_r (length h)). by rewrite alter_app_r. Qed.

Lemma acc_inv_lengths B P st :
  acc_inv maxMutations B P st →
  length (muts st) = length P ∧ length (rows st) = length P.
Proof.
  intros [Hr Hm _ _ _ _]. split.
  - rewrite <- (length_fmap (deref (heap st))), Hm. by rewrite length_fmap.
  - by rewrite Hr, length_fmap.
Qed.

Lemma acc_inv_empty ls : acc_inv maxMutations [] [] (empty_state ls).
Proof. by split; cbn; try constructor; try lia. Qed.

Lemma concat_full_length (B : list (list SetCall)) :
  Forall (λ q, length q = maxMutations) B →
  length (concat B) = (length B * maxMutations)%nat.
Proof. induction 1 as [|q B Hq _ IH]; cbn; [done|]. rewrite length_app, IH, Hq. lia. Qed.

Lemma bulk_write_inv B P st :
  acc_inv maxMutations B P st → P ≠ [] →
  ∃ line, bulk_write ApplyBulk st = Some (emit (call_of P) line st).
Proof.
  intros [Hr Hm _ _ _ _] HP. unfold bulk_write.
  rewrite Hm, Hr. destruct (ApplyBulk _ _) as [errs err].
  case_decide; [by eexists|].
  destruct err; [by eexists|].
  destruct P as [|c P]; [done|]. by eexists.
Qed.

Lemma finish_inv B P st :
  acc_inv maxMutations B P st →
  ∃ st', finish ApplyBulk st = Some st' ∧
    if decide (P = []) then st' = st
    else ∃ line, st' = emit (call_of P) line st.
Proof.
  intros Hinv. destruct (acc_inv_lengths _ _ _ Hinv) as [Hlen _].
  unfold finish. rewrite Hlen. destruct P as [|c P]; cbn.
  - by eexists.
  - destruct (bulk_write_inv B (c :: P) st Hinv) as [line ->]; [done|].
    case_decide; [|cbn in *; lia].
    eexists. split; [reflexivity|]. case_decide; [done|]. by eexists.
Qed.

Hypothesis max_pos : (0 < maxMutations)%nat.

Lemma set_inv B P st c :
  acc_inv maxMutations B P st →
  ∃ st', set maxMutations ApplyBulk c st = Some st' ∧
    if decide (length P = maxMutations)
    then acc_inv maxMutations (B ++ [P]) [c] st'
    else acc_inv maxMutations B (P ++ [c]) st'.
Proof.
  intros Hinv. pose proof Hinv as [Hr Hm Ha Hc Hf Hb].
  assert (Hlen : length (muts st) = length P).
  { rewrite <- (length_fmap (deref (heap st))), Hm. by rewrite length_fmap. }
  unfold set. cbn [muts with_heap]. rewrite Hlen.
  case_decide as Hfull.
  - assert (Hinv' : acc_inv maxMutations B P (with_heap (heap st ++ [[]]) st)).
    { split; cbn; try done.
      - by rewrite deref_fmap_app.
      - eapply Forall_impl; [exact Ha|]. intros p Hp. cbn in Hp. rewrite length_app. lia. }
    destruct (bulk_write_inv B P _ Hinv') as [line ->].
    { intros ->. cbn in Hfull. lia. }
    eexists. split; [reflexivity|]. cbn.
    split; cbn.
    + done.
    + by rewrite alter_new, deref_new.
    + repeat constructor. rewrite length_alter, length_app. cbn. lia.
    + by rewrite Hc, fmap_app.
    + apply Forall_app. split; [done|]. by repeat constructor.
    + lia.
  - eexists. split; [reflexivity|]. cbn.
    split; cbn.
    + by rewrite Hr, fmap_app.
    + rewrite alter_new, !fmap_app. cbn. rewrite deref_new.
      rewrite deref_fmap_app by done. by rewrite Hm.
    + rewrite length_alter, length_app. cbn. apply Forall_app. split.
      * eapply Forall_impl; [exact Ha|]. intros p Hp. cbn in Hp. lia.
      * repeat constructor. lia.
    + done.
    + done.
    + rewrite length_app. cbn. lia.
Qed.

Lemma set_all_inv cs : ∀ B P st,
  acc_inv maxMutations B P st →
  ∃ st' B' P', set_all maxMutations ApplyBulk cs st = Some st' ∧
    acc_inv maxMutations B' P' st' ∧
    concat B' ++ P' = concat B ++ P ++ cs ∧
    (P ≠ [] ∨ cs ≠ [] → P' ≠ []).
Proof.
  induction cs as [|c cs IH]; intros B P st Hinv.
  - exists st, B, P. rewrite app_nil_r. split_and!; try done. by intros [|].
  - destruct (set_inv B P st c Hinv) as (st1 & Hset & Hstep).
    cbn [set_all]. rewrite Hset. cbn.
    case_decide.
    + destruct (IH _ _ _ Hstep) as (st' & B' & P' & ? & ? & Hcat & Hne).
      exists st', B', P'. split_and!; try done.
      * rewrite Hcat, concat_app. cbn. by rewrite app_nil_r, <- !app_assoc.
      * intros _. apply Hne. by left.
    + destruct (IH _ _ _ Hstep) as (st' & B' & P' & ? & ? & Hcat & Hne).
      exists st', B', P'. split_and!; try done.
      * rewrite Hcat. by rewrite <- !app_assoc.
      * intros _. apply Hne. left. by destruct P.
Qed.


End Acc.

Lemma batch_infix (B : list (list SetCall)) q :
  q ∈ B → ∃ before after, concat B = before ++ q ++ after.
Proof.
  intros (B1 & B2 & ->)%list_elem_of_split.
  exists (concat B1), (concat B2). by rewrite concat_app.
Qed.

(** C4: with a positive batch size, after any sequence of additions the
    accumulator holds at most [maxMutations] pending mutations, every bulk
    write issued so far carried exactly [maxMutations] of them, and the
    cells added are those written plus those pending; the next addition
    issues a bulk write of the pending batch exactly when it is full, and
    then starts a fresh batch with the new cell; the final flush issues one
    bulk write of a non-empty remainder and none of an empty one. *)
Theorem C4_flush_exactly_when_full
    (maxMutations : nat) (ApplyBulk : list string → list Mutation → list string * option string)
    (cs : list SetCall) (ls : list LogLine) :
  (0 < maxMutations)%nat →
  ∃ st, set_all maxMutations ApplyBulk cs (empty_state ls) = Some st ∧
    (length (muts st) ≤ maxMutations)%nat ∧
    Forall (λ call, length (bc_muts call) = maxMutations) (calls st) ∧
    length cs = (length (calls st) * maxMutations + length (muts st))%nat ∧
    (∀ c, ∃ st', set maxMutations ApplyBulk c st = Some st' ∧
       if decide (length (muts st) = maxMutations)
       then calls st' =
              calls st ++ [{| bc_rows := rows st; bc_muts := deref (heap st) <$> muts st |}]
            ∧ rows st' = [c_row c] ∧ length (muts st') = 1%nat
       else calls st' = calls st ∧ rows st' = rows st ++ [c_row c]
            ∧ length (muts st') = S (length (muts st))) ∧
    (∃ st', finish ApplyBulk st = Some st' ∧
       if decide (muts st = [])
       then st' = st
       else calls st' =
              calls st ++ [{| bc_rows := rows st; bc_muts := deref (heap st) <$> muts st |}]).
Proof.
  intros Hpos.
  destruct (set_all_inv maxMutations ApplyBulk Hpos cs [] [] (empty_state ls)
              (acc_inv_empty maxMutations ls))
    as (st & B & P & Hrun & Hinv & Hcat & _).
  cbn in Hcat.
  destruct (acc_inv_lengths _ _ _ _ Hinv) as [Hlm Hlr].
  pose proof Hinv as [Hr Hm Ha Hc Hf Hb].
  assert (Hcall : call_of P = {| bc_rows := rows st; bc_muts := deref (heap st) <$> muts st |}).
  { unfold call_of. by rewrite Hr, Hm. }
  exists st. split_and!.
  - done.
  - lia.
  - rewrite Hc. apply Forall_fmap. eapply Forall_impl; [exact Hf|].
    intros q Hq. cbn. by rewrite length_fmap.
  - rewrite <- Hcat, length_app, (concat_full_length maxMutations B Hf).
    by rewrite Hc, length_fmap, Hlm.
  - intros c. destruct (set_inv maxMutations ApplyBulk Hpos B P st c Hinv) as (st' & Hset & Hstep).
    exists st'. split; [done|]. rewrite Hlm.
    case_decide.
    + destruct (acc_inv_lengths _ _ _ _ Hstep) as [Hlm' _].
      destruct Hstep as [Hr' _ _ Hc' _ _].
      by rewrite Hc', fmap_app, <- Hc, Hr', <- Hcall.
    + destruct (acc_inv_lengths _ _ _ _ Hstep) as [Hlm' _].
      destruct Hstep as [Hr' _ _ Hc' _ _].
      rewrite Hc', Hr', Hlm', length_app, fmap_app, <- Hc, <- Hr. cbn.
      split_and!; [done..|lia].
  - destruct (finish_inv maxMutations ApplyBulk B P st Hinv) as (st' & Hfin & Hcase).
    exists st'. split; [done|].
    destruct (decide (muts st = [])) as [Hm0|Hm0].
    + assert (HP0 : P = []).
      { apply nil_length_inv. by rewrite <- Hlm, Hm0. }
      by rewrite decide_True in Hcase.
    + assert (P ≠ []) by (intros ->; by destruct (muts st)).
      rewrite decide_False in Hcase by done.
      destruct Hcase as [line ->]. cbn. by rewrite Hcall.
Qed.

(** C10: with a positive batch size, after any sequence of additions the
    pending row keys and pending mutations have equal length and come,
    index by index, from the same invocations of [set]; so do the row keys
    and mutations of every bulk call, those of the final flush included. *)
Theorem C10_rows_and_mutations_aligned
    (maxMutations : nat) (ApplyBulk : list string → list Mutation → list string * option string)
    (cs : list SetCall) (ls : list LogLine) :
  (0 < maxMutations)%nat →
  ∃ st st', set_all maxMutations ApplyBulk cs (empty_state ls) = Some st ∧
    finish ApplyBulk st = Some st' ∧
    length (rows st) = length (muts st) ∧
    aligned cs (rows st) (deref (heap st) <$> muts st) ∧
    Forall (λ call, length (bc_rows call) = length (bc_muts call) ∧
                    aligned cs (bc_rows call) (bc_muts call)) (calls st').
Proof.
  intros Hpos.
  destruct (set_all_inv maxMutations ApplyBulk Hpos cs [] [] (empty_state ls)
              (acc_inv_empty maxMutations ls))
    as (st & B & P & Hrun & Hinv & Hcat & _).
  cbn in Hcat.
  destruct (finish_inv maxMutations ApplyBulk B P st Hinv) as (st' & Hfin & Hcase).
  destruct (acc_inv_lengths _ _ _ _ Hinv) as [Hlm Hlr].
  pose proof Hinv as [Hr Hm Ha Hc Hf Hb].
  assert (HP : aligned cs (c_row <$> P) (mutation_of <$> P)).
  { exists (concat B), P, []. by rewrite app_nil_r. }
  assert (HB : Forall (λ call, length (bc_rows call) = length (bc_muts call) ∧
                               aligned cs (bc_rows call) (bc_muts call)) (calls st)).
  { rewrite Hc. apply Forall_fmap, Forall_forall. intros q Hq. cbn. split.
    - by rewrite !length_fmap.
    - destruct (batch_infix B q Hq) as (before & after & Hsplit).
      exists before, q, (after ++ P). split; [|done].
      by rewrite <- Hcat, Hsplit, <- !app_assoc. }
  exists st, st'. split_and!; try done.
  - lia.
  - by rewrite Hr, Hm.
  - case_decide as HPnil; [by subst st'|].
    destruct Hcase as [line ->]. cbn. apply Forall_app. split; [done|].
    repeat constructor; cbn; [by rewrite !length_fmap | done].
Qed.

(** ** Logs, timestamps and written cells of a task *)

Section TaskFacts.
Variable maxMutations : nat.
Variable family : string.
Variable ApplyBulk : list string → list Mutation → list string * option string.
Variable http_Get : string → option (Z * option string).
Variable json_Unmarshal : string → option TestResultsReport.

Lemma deref_stamped ts h p : Forall (stamped ts) h → stamped ts (deref h p).
Proof.
  intros Hh. unfold deref. destruct (h !! p) as [m|] eqn:Hp; cbn.
  - by eapply Forall_lookup_1.
  - constructor.
Qed.

Lemma bulk_write_emits st st' :
  bulk_write ApplyBulk st = Some st' →
  ∃ line, is_warning line = false ∧
    st' = emit {| bc_rows := rows st; bc_muts := deref (heap st) <$> muts st |} line st.
Proof.
  unfold bulk_write. destruct (ApplyBulk _ _) as [errs err].
  case_decide; cbn.
  - intros [= <-]. eexists; split; [|reflexivity]; done.
  - destruct err; cbn.
    + intros [= <-]. eexists; split; [|reflexivity]; done.
    + destruct (rows st !! 0%nat); cbn; [|done]. intros [= <-].
      eexists; split; [|reflexivity]; done.
Qed.

Lemma bulk_write_weak ts st st' :
  weak_inv ts st → bulk_write ApplyBulk st = Some st' → weak_inv ts st'.
Proof.
  intros [Hl Hh Hc] (line & Hline & ->)%bulk_write_emits. split; cbn.
  - apply Forall_app. by repeat constructor.
  - done.
  - apply Forall_app. split; [done|]. repeat constructor. cbn.
    apply Forall_fmap, Forall_forall. intros p _. by apply deref_stamped.
Qed.

Lemma set_weak ts c st st' :
  c_ts c = ts → weak_inv ts st →
  set maxMutations ApplyBulk c st = Some st' →
  weak_inv ts st' ∧ muts st' ≠ [].
Proof.
  intros Hts Hinv. unfold set.
  set (st0 := with_heap (heap st ++ [[]]) st).
  assert (Hinv0 : weak_inv ts st0).
  { destruct Hinv as [Hl Hh Hc]. split; cbn; try done.
    apply Forall_app. split; [done|]. by repeat constructor. }
  assert (Hlen0 : length (heap st0) = S (length (heap st))).
  { cbn. rewrite length_app. cbn. lia. }
  clearbody st0.
  assert (Hnext : ∀ st1, weak_inv ts st1 →
    weak_inv ts (with_heap
       (alter (λ ops, ops ++ [SetCell (c_family c) (c_column c) (c_ts c) (c_value c)])
              (length (heap st)) (heap (with_batch (muts st1 ++ [length (heap st)])
                                                  (rows st1 ++ [c_row c]) st1)))
       (with_batch (muts st1 ++ [length (heap st)]) (rows st1 ++ [c_row c]) st1)) ∧
    muts st1 ++ [length (heap st)] ≠ []).
  { intros st1 [Hl Hh Hc]. split; [|by destruct (muts st1)].
    split; cbn; try done.
    apply Forall_alter; [done|]. intros m _ Hm. apply Forall_app. split; [done|].
    by repeat constructor. }
  case_decide.
  - destruct (bulk_write ApplyBulk st0) as [st1|] eqn:Hbw; cbn; [|done].
    intros [= <-]. cbn.
    apply (bulk_write_weak ts) in Hbw; [|done].
    destruct (Hnext (with_batch [] [] st1)) as [? ?]; [by destruct Hbw|]. done.
  - cbn. intros [= <-]. by apply Hnext.
Qed.

Lemma set_all_weak ts cs : ∀ st st',
  Forall (λ c, c_ts c = ts) cs → weak_inv ts st →
  set_all maxMutations ApplyBulk cs st = Some st' →
  weak_inv ts st' ∧ (cs ≠ [] → muts st' ≠ []).
Proof.
  induction cs as [|c cs IH]; intros st st' Hcs Hinv; cbn.
  - intros [= <-]. done.
  - apply Forall_cons in Hcs as [Hc Hcs].
    destruct (set maxMutations ApplyBulk c st) as [st1|] eqn:Hset; cbn; [|done].
    intros Hrest. destruct (set_weak ts c st st1 Hc Hinv Hset) as [Hinv1 Hne1].
    destruct (IH st1 st' Hcs Hinv1 Hrest) as [Hinv' Hne'].
    split; [done|]. intros _.
    destruct cs; [|by apply Hne'].
    cbn in Hrest. by injection Hrest as <-.
Qed.

Lemma finish_weak ts st st' :
  weak_inv ts st → finish ApplyBulk st = Some st' →
  weak_inv ts st' ∧ (muts st ≠ [] → calls st' ≠ []).
Proof.
  intros Hinv. unfold finish. case_decide as Hlen.
  - intros Hbw. split; [by eapply bulk_write_weak|]. intros _.
    apply bulk_write_emits in Hbw as (line & _ & ->). cbn. by destruct (calls st).
  - intros [= <-]. split; [done|]. intros Hne. destruct (muts st); [done|cbn in Hlen; lia].
Qed.

Lemma empty_state_weak ts line :
  is_warning line = false → weak_inv ts (empty_state [line]).
Proof. intros Hl. split; cbn; by repeat constructor. Qed.

Lemma set_all_app cs1 : ∀ cs2 st,
  set_all maxMutations ApplyBulk (cs1 ++ cs2) st
  = set_all maxMutations ApplyBulk cs1 st ≫= set_all maxMutations ApplyBulk cs2.
Proof.
  induction cs1 as [|c cs1 IH]; intros cs2 st; cbn; [done|].
  destruct (set _ _ c st); cbn; [apply IH|done].
Qed.

(** The loop over the results runs [set] over the cells of the results
    when none is nil, and panics otherwise. *)
Lemma for_results_present run ts results : ∀ st,
  Forall is_Some results →
  for_results maxMutations family ApplyBulk run ts results st
  = set_all maxMutations ApplyBulk (results_calls family run ts results) st.
Proof.
  induction results as [|[res|] results IH]; intros st Hall; cbn; [done| |].
  - apply Forall_cons in Hall as [_ Hall]. rewrite set_all_app.
    destruct (set_all _ _ _ st); cbn; [by apply IH|done].
  - by apply Forall_cons in Hall as [[? ?] _].
Qed.

Lemma for_results_nil run ts results : ∀ st,
  ¬ Forall is_Some results →
  for_results maxMutations family ApplyBulk run ts results st = None.
Proof.
  induction results as [|[res|] results IH]; intros st Hnil; cbn; [|  |done].
  - exfalso. apply Hnil. constructor.
  - destruct (set_all _ _ _ st); cbn; [|done]. apply IH. intros Hall. apply Hnil.
    constructor; [by eexists|done].
Qed.

Lemma for_results_some run ts results st st' :
  for_results maxMutations family ApplyBulk run ts results st = Some st' →
  Forall is_Some results ∧
  set_all maxMutations ApplyBulk (results_calls family run ts results) st = Some st'.
Proof.
  intros Hrun. destruct (decide (Forall is_Some results)) as [Hall|Hnil].
  - split; [done|]. by rewrite <- for_results_present.
  - by rewrite for_results_nil in Hrun.
Qed.
End TaskFacts.

Section TaskBody.
Variable maxMutations : nat.
Variable family : string.
Variable ApplyBulk : list string → list Mutation → list string * option string.
Variable http_Get : string → option (Z * option string).
Variable json_Unmarshal : string → option TestResultsReport.
Variable ts : Timestamp.
Variable run : TestRun.

Lemma task_body_skips_with :
  skippable http_Get json_Unmarshal run →
  ∃ w, is_warning w = true ∧
    (w = WarnLoadFailed (RawResultsURL run) run ∨
     (∃ code, w = WarnNonOKStatus code (RawResultsURL run) run) ∨
     w = WarnReadFailed (RawResultsURL run) run ∨
     w = WarnUnmarshalFailed (RawResultsURL run) run ∨
     w = WarnEmptyReport (runID run) (RawResultsURL run)) ∧
    task_body maxMutations family ApplyBulk http_Get json_Unmarshal ts run
    = Some {| muts := []; rows := []; heap := []; calls := []; logs := [w] |}.
Proof.
  unfold skippable, task_body.
  intros [Hget|[(code & b & Hget & Hcode)|[Hget|[(data & Hget & Hjson)|
          (data & report & Hget & Hjson & Hres)]]]]; rewrite Hget.
  - eexists. split_and!; [|by left|reflexivity]. done.
  - rewrite decide_True by done.
    eexists. split_and!; [|right; left; by eexists|reflexivity]. done.
  - rewrite decide_False by (intros ?; done).
    eexists. split_and!; [|do 2 right; by left|reflexivity]. done.
  - rewrite decide_False by (intros ?; done). rewrite Hjson.
    eexists. split_and!; [|do 3 right; by left|reflexivity]. done.
  - rewrite decide_False by (intros ?; done). rewrite Hjson, Hres. cbn.
    eexists. split_and!; [|do 4 right; reflexivity|reflexivity]. done.
Qed.

Lemma task_body_skips :
  skippable http_Get json_Unmarshal run →
  ∃ w, is_warning w = true ∧
    task_body maxMutations family ApplyBulk http_Get json_Unmarshal ts run
    = Some (empty_state [w]).
Proof.
  unfold skippable, task_body.
  intros [Hget|[(code & b & Hget & Hcode)|[Hget|[(data & Hget & Hjson)|
          (data & report & Hget & Hjson & Hres)]]]]; rewrite Hget.
  - eexists; split; [|reflexivity]; done.
  - rewrite decide_True by done. eexists; split; [|reflexivity]; done.
  - rewrite decide_False by (intros ?; done). eexists; split; [|reflexivity]; done.
  - rewrite decide_False by (intros ?; done). rewrite Hjson.
    eexists; split; [|reflexivity]; done.
  - rewrite decide_False by (intros ?; done). rewrite Hjson, Hres. cbn.
    eexists; split; [|reflexivity]; done.
Qed.

Lemma task_body_cases st :
  task_body maxMutations family ApplyBulk http_Get json_Unmarshal ts run = Some st →
  (skippable http_Get json_Unmarshal run ∧
   ∃ w, is_warning w = true ∧ st = empty_state [w]) ∨
  (¬ skippable http_Get json_Unmarshal run ∧ weak_inv ts st ∧ calls st ≠ []).
Proof.
  intros Hbody.
  destruct (http_Get (RawResultsURL run)) as [[code b]|] eqn:Hget.
  2:{ assert (Hs : skippable http_Get json_Unmarshal run) by (by left).
      left. split; [done|]. destruct (task_body_skips Hs) as (w & Hw & Heq).
      exists w. split; [done|]. congruence. }
  destruct (decide (code ≠ 200)) as [Hcode|Hcode].
  { assert (Hs : skippable http_Get json_Unmarshal run) by (right; left; eauto).
    left. split; [done|]. destruct (task_body_skips Hs) as (w & Hw & Heq).
    exists w. split; [done|]. congruence. }
  assert (code = 200) as -> by lia.
  destruct b as [data|].
  2:{ assert (Hs : skippable http_Get json_Unmarshal run) by (do 2 right; by left).
      left. split; [done|]. destruct (task_body_skips Hs) as (w & Hw & Heq).
      exists w. split; [done|]. congruence. }
  destruct (json_Unmarshal data) as [report|] eqn:Hjson.
  2:{ assert (Hs : skippable http_Get json_Unmarshal run) by (do 3 right; left; eauto).
      left. split; [done|]. destruct (task_body_skips Hs) as (w & Hw & Heq).
      exists w. split; [done|]. congruence. }
  destruct (decide (Results report = [])) as [Hres|Hres].
  { assert (Hs : skippable http_Get json_Unmarshal run) by (do 4 right; eauto).
    left. split; [done|]. destruct (task_body_skips Hs) as (w & Hw & Heq).
    exists w. split; [done|]. congruence. }
  right. split.
  { unfold skippable. rewrite Hget.
    intros [?|[(c & b & [= <- <-] & ?)|[?|[(d & [= <-] & ?)|(d & r & [= <-] & ? & ?)]]]];
      try done; congruence. }
  unfold task_body in Hbody. rewrite Hget, Hjson in Hbody.
  rewrite decide_False in Hbody by (intros ?; done).
  rewrite decide_False in Hbody by (by destruct (Results report)).
  destruct (for_results _ _ _ _ _ _ _) as [st1|] eqn:Hall; cbn in Hbody; [|done].
  apply for_results_some in Hall as [Hpresent Hall].
  eapply set_all_weak in Hall as [Hinv1 Hne1].
  - eapply finish_weak in Hbody as [Hinv Hne]; [|done]. split; [done|].
    by apply Hne, Hne1, report_calls_nonempty.
  - apply report_calls_ts.
  - by apply empty_state_weak.
Qed.

Lemma task_body_stamped st :
  task_body maxMutations family ApplyBulk http_Get json_Unmarshal ts run = Some st →
  Forall (λ call, Forall (stamped ts) (bc_muts call)) (calls st).
Proof.
  intros [[_ (w & _ & ->)]|(_ & [_ _ Hc] & _)]%task_body_cases; [constructor|done].
Qed.
End TaskBody.

(** ** The process *)

Lemma stamped_timestamps ts ms :
  Forall (stamped ts) ms → Forall (λ x, x = ts) (op_ts <$> concat ms).
Proof.
  intros Hms. apply Forall_fmap, Forall_concat.
  eapply Forall_impl; [exact Hms|]. intros m Hm. exact Hm.
Qed.

Lemma run_task_ok env t st :
  run_task env t = Some st → task_ok (t_ts t) (set_pc (TReleasing st) t).
Proof.
  intros Hrun%task_body_stamped. split; [done|]. cbn.
  eapply Forall_impl; [exact Hrun|]. intros call Hcall. by apply stamped_timestamps.
Qed.

Lemma task_ok_alter ts0 ts i pc :
  Forall (task_ok ts0) ts →
  (∀ t, ts !! i = Some t → task_ok ts0 t → task_ok ts0 (set_pc pc t)) →
  Forall (task_ok ts0) (alter (set_pc pc) i ts).
Proof. intros Hts Hpc. by apply Forall_alter. Qed.

Lemma task_ok_idle ts0 t pc :
  task_calls (set_pc pc t) = [] → task_ok ts0 t → task_ok ts0 (set_pc pc t).
Proof. intros Hc [Hts _]. split; [done|]. rewrite Hc. constructor. Qed.

Lemma wake_inv env who p : proc_inv env p → proc_inv env (wake who p).
Proof.
  intros [Hm Ht]. destruct who as [| |j]; cbn; [|done|].
  - destruct (p_main p) eqn:Hmain; try (split; [by rewrite Hmain|done]).
    split; cbn; done.
  - split; cbn; [|apply task_ok_alter; [done|]; intros; by apply task_ok_idle].
    destruct (p_main p); try done.
    + destruct Hm as [? Hnil]. rewrite Hnil. done.
    + destruct Hm as [? Hnil]. rewrite Hnil. done.
    + destruct Hm as [? Hnil]. rewrite Hnil. done.
    + destruct Hm as (? & ? & Hnil). rewrite Hnil. done.
Qed.

Lemma wake_all_inv env woken p : proc_inv env p → proc_inv env (wake_all woken p).
Proof. intros Hp. induction woken as [|who woken IH]; cbn; [done|]. by apply wake_inv. Qed.

Lemma step_inv env who p p' : proc_inv env p → step env who p = Some p' → proc_inv env p'.
Proof.
  intros [Hm Ht]. unfold step. destruct (p_status p); try done.
  destruct who as [| |i].
  - unfold step_main. destruct (p_main p) as [| | |ts|ts runs [|run rest]|runs|runs|] eqn:Hmain.
    + intros [= <-]. split; cbn; done.
    + destruct (e_dsClientErr env); [intros [= <-]; split; cbn; [by rewrite Hmain|done]|].
      destruct (e_btClientErr env); intros [= <-]; split; cbn; [by rewrite Hmain|done|done..].
    + intros [= <-]. destruct Hm as [Hr Hnil]. split; cbn; [|done]. rewrite Hr. done.
    + destruct (getRuns _).2 as [[keys runs]|err]; intros [= <-]; split; cbn; try done.
      * tauto.
      * by rewrite Hmain.
    + destruct (Acquire _ _ _); intros [= <-]; split; cbn; try done; tauto.
    + intros [= <-]. split; cbn; [done|]. apply Forall_app. split; [done|].
      repeat constructor. cbn. tauto.
    + done.
    + intros [= <-]. split; cbn; done.
    + done.
  - unfold step_monitor. destruct (p_monitor p); cbn; [|done].
    destruct (monitor_tick _); intros [= <-]; split; cbn; done.
  - unfold step_worker. destruct (p_tasks p !! i) as [t|] eqn:Hi; cbn; [|done].
    assert (Htask : task_ok (e_clock env 0) t) by (by eapply Forall_lookup_1).
    assert (Hidle : ∀ pc, task_calls (set_pc pc t) = [] →
              Forall (task_ok (e_clock env 0)) (alter (set_pc pc) i (p_tasks p))).
    { intros pc Hpc. apply task_ok_alter; [done|]. intros t' Ht'.
      assert (t' = t) as -> by congruence. by apply task_ok_idle. }
    assert (Hmain' : ∀ ts' : list Task, ts' ≠ [] → match p_main p with
              | MStart | MClients | MNow => p_clock_reads p = 0%nat ∧ ts' = []
              | MGetRuns ts => p_clock_reads p = 1%nat ∧ ts = e_clock env 0 ∧ ts' = []
              | MSpawn ts _ _ => p_clock_reads p = 1%nat ∧ ts = e_clock env 0
              | MDrain _ | MReport _ | MReturned => p_clock_reads p = 1%nat
              end).
    { intros ts' Hne. destruct (p_main p); try exact Hm; exfalso.
      all: try (destruct Hm as [_ Hnil]; by rewrite Hnil in Hi).
      destruct Hm as (_ & _ & Hnil). by rewrite Hnil in Hi. }
    assert (Halt : ∀ pc, alter (set_pc pc) i (p_tasks p) ≠ []).
    { intros pc Hnil. apply (f_equal length) in Hnil. rewrite length_alter in Hnil.
      apply lookup_lt_Some in Hi. cbn in Hnil. lia. }
    destruct (t_pc t) eqn:Hpc.
    + destruct (Acquire _ _ _); intros [= <-]; (split; cbn; [by apply Hmain'|by apply Hidle]).
    + done.
    + destruct (run_task env t) as [st|] eqn:Hrun; intros [= <-].
      * split; cbn; [by apply Hmain'|]. apply task_ok_alter; [done|].
        intros t' Ht' _. assert (t' = t) as -> by congruence.
        destruct Htask as [Hts _]. rewrite <- Hts. by apply (run_task_ok env).
      * split; cbn; done.
    + destruct (Release _ _) as [[s woken]|]; intros [= <-].
      * apply wake_all_inv. split; cbn; [by apply Hmain'|]. apply task_ok_alter; [done|].
        intros t' Ht' [Hts Hcalls]. assert (t' = t) as -> by congruence.
        split; [done|]. cbn. unfold task_calls in Hcalls. by rewrite Hpc in Hcalls.
      * split; cbn; done.
    + done.
Qed.

Lemma exec_inv env sched : ∀ p p',
  proc_inv env p → exec env sched p = Some p' → proc_inv env p'.
Proof.
  induction sched as [|who sched IH]; intros p p' Hp; cbn.
  - by intros [= <-].
  - destruct (step env who p) as [p1|] eqn:Hstep; cbn; [|done].
    apply IH. by eapply step_inv.
Qed.

Lemma init_inv env : proc_inv env init.
Proof. split; cbn; [done|constructor]. Qed.

(** ** The semaphore *)

Lemma held_app ts1 ts2 : held (ts1 ++ ts2) = held ts1 + held ts2.
Proof. induction ts1 as [|t ts1 IH]; cbn; lia. Qed.

Lemma held_alter ts : ∀ i t pc,
  ts !! i = Some t →
  held (alter (set_pc pc) i ts) = held ts - units t + units (set_pc pc t).
Proof.
  induction ts as [|t' ts IH]; intros [|i] t pc Hi; cbn in *; try done.
  - injection Hi as ->. lia.
  - rewrite (IH i t pc Hi). lia.
Qed.

Lemma notifyWaiters_spec sz ws : ∀ c c' ws' woken,
  notifyWaiters sz c ws = (c', ws', woken) →
  ∃ granted, ws = granted ++ ws' ∧ woken = granted.*1 ∧
    c' = c + foldr (λ w acc, w.2 + acc) 0 granted ∧ (c ≤ sz → c' ≤ sz).
Proof.
  induction ws as [|[who n] ws IH]; intros c c' ws' woken; cbn.
  - intros [= <- <- <-]. exists []. cbn. split_and!; try done; lia.
  - case_decide as Hfit.
    + intros [= <- <- <-]. exists []. cbn. split_and!; try done; lia.
    + destruct (notifyWaiters sz (c + n) ws) as [[c1 ws1] woken1] eqn:Hrec.
      intros [= <- <- <-].
      destruct (IH _ _ _ _ Hrec) as (granted & -> & -> & -> & Hle).
      exists ((who, n) :: granted). cbn. split_and!; try done; lia.
Qed.

Lemma held_nonneg ts : 0 ≤ held ts.
Proof. induction ts as [|t ts IH]; cbn; [done|]. unfold units. destruct (holding t); lia. Qed.

Lemma held_lookup ts i t : ts !! i = Some t → units t ≤ held ts.
Proof.
  revert i. induction ts as [|t' ts IH]; intros [|i] Hi; cbn in *; try done.
  - injection Hi as ->. pose proof (held_nonneg ts). lia.
  - specialize (IH i Hi). unfold units in *. destruct (holding t'); lia.
Qed.

Lemma Acquire_cases who n s :
  (size s - cur s >= n ∧ waiters s = [] ∧
   Acquire who n s = Acquired {| size := size s; cur := cur s + n; waiters := waiters s |}) ∨
  (n > size s ∧ Acquire who n s = Doomed) ∨
  (Acquire who n s =
   Queued {| size := size s; cur := cur s; waiters := waiters s ++ [(who, n)] |}).
Proof.
  unfold Acquire. destruct (decide (size s - cur s >= n ∧ length (waiters s) = 0%nat))
    as [[Hfree Hnone%nil_length_inv]|Hbusy].
  - by left.
  - right. destruct (decide (n > size s)); [by left|by right].
Qed.

Section Semaphore.
Variable env : Env.

Lemma sem_inv_frame p p' :
  p_main p' = p_main p → p_sem p' = p_sem p → p_tasks p' = p_tasks p →
  sem_inv env p → sem_inv env p'.
Proof.
  destruct p, p'. cbn. intros -> -> -> [Hs Hc Hl Hw Hn]. by split.
Qed.

Lemma waiter_ok_worker p p' w :
  (∀ j, w.1 = Worker j → p_tasks p' !! j = p_tasks p !! j) →
  (w.1 = Main → p_main p' = p_main p) →
  waiter_ok env p w → waiter_ok env p' w.
Proof.
  unfold waiter_ok. destruct w as [[| |j] n]; cbn; intros Ht Hm; [|done|].
  - by rewrite Hm.
  - by rewrite Ht.
Qed.

Lemma no_main_waiter p ws :
  Forall (waiter_ok env p) ws → (∀ runs, p_main p ≠ MDrain runs) → Main ∉ ws.*1.
Proof.
  intros Hws Hmain ([who n] & Hwho & Hin)%list_elem_of_fmap. cbn in Hwho. subst who.
  rewrite Forall_forall in Hws. destruct (Hws _ Hin) as [_ [runs Hruns]]. by eapply Hmain.
Qed.

Lemma no_worker_waiter p ws i t :
  Forall (waiter_ok env p) ws → p_tasks p !! i = Some t → t_pc t ≠ TWaiting →
  Worker i ∉ ws.*1.
Proof.
  intros Hws Hi Hpc ([who n] & Hwho & Hin)%list_elem_of_fmap. cbn in Hwho. subst who.
  rewrite Forall_forall in Hws. destruct (Hws _ Hin) as [_ (t' & Ht' & Hw)]. cbn in Ht'.
  congruence.
Qed.

(** Waiters other than the thread that moved keep their standing. *)
Lemma waiters_set_task p ws i t pc :
  Forall (waiter_ok env p) ws → p_tasks p !! i = Some t → t_pc t ≠ TWaiting →
  Forall (waiter_ok env (set_task i pc p)) ws.
Proof.
  intros Hws Hi Hpc. pose proof (no_worker_waiter p ws i t Hws Hi Hpc) as Hnot.
  apply Forall_forall. intros w Hw. rewrite Forall_forall in Hws.
  apply (waiter_ok_worker p); [| done | by apply Hws].
  intros j Hj. cbn. apply list_lookup_alter_ne. intros <-.
  apply Hnot. apply list_elem_of_fmap. by exists w.
Qed.

Lemma waiters_set_main p ws pc :
  Forall (waiter_ok env p) ws → (∀ runs, p_main p ≠ MDrain runs) →
  Forall (waiter_ok env (set_main pc p)) ws.
Proof.
  intros Hws Hmain. pose proof (no_main_waiter p ws Hws Hmain) as Hnot.
  apply Forall_forall. intros w Hw. rewrite Forall_forall in Hws.
  apply (waiter_ok_worker p); [done | | by apply Hws].
  intros Hm. exfalso. apply Hnot. apply list_elem_of_fmap. by exists w.
Qed.

Lemma wake_one p who n :
  waiter_ok env p (who, n) →
  held (p_tasks (wake who p)) + main_holds env (wake who p)
    = held (p_tasks p) + main_holds env p + n ∧
  (∀ w, w.1 ≠ who → waiter_ok env p w → waiter_ok env (wake who p) w) ∧
  (sem_sized env p → sem_sized env (wake who p)) ∧
  p_sem (wake who p) = p_sem p.
Proof.
  unfold waiter_ok. destruct who as [| |j]; cbn; [|done|].
  - intros [-> [runs Hmain]]. rewrite Hmain. unfold main_holds, sem_sized. cbn. rewrite Hmain.
    split_and!; try done; [lia|].
    intros [[| |k] m] Hne; cbn in *; try done.
  - intros [-> (t & Hj & Hpc)]. unfold main_holds, sem_sized. cbn.
    rewrite (held_alter _ j t THolding Hj). unfold units, holding. cbn. rewrite Hpc.
    split_and!; try done; [lia| |].
    + intros [[| |k] m] Hne; cbn in *; try done.
      rewrite list_lookup_alter_ne by congruence. done.
    + destruct (p_main p); try done; intros Hnil; rewrite Hnil in Hj; done.
Qed.

Lemma wake_granted granted : ∀ p rest,
  Forall (waiter_ok env p) granted → Forall (waiter_ok env p) rest →
  NoDup granted.*1 → (∀ who, who ∈ granted.*1 → who ∉ rest.*1) →
  held (p_tasks (wake_all granted.*1 p)) + main_holds env (wake_all granted.*1 p)
    = held (p_tasks p) + main_holds env p + foldr (λ w acc, w.2 + acc) 0 granted ∧
  Forall (waiter_ok env (wake_all granted.*1 p)) rest ∧
  (sem_sized env p → sem_sized env (wake_all granted.*1 p)) ∧
  p_sem (wake_all granted.*1 p) = p_sem p.
Proof.
  induction granted as [|[who n] granted IH]; intros p rest Hg Hr Hnd Hdis.
  - cbn. split_and!; try done. lia.
  - apply Forall_cons in Hg as [Hw Hg]. cbn in Hnd. apply NoDup_cons in Hnd as [Hnotin Hnd].
    destruct (IH p ((who, n) :: rest) Hg) as (Hheld & Hrest & Hsized & Hsem).
    { by constructor. }
    { done. }
    { intros who' Hin. cbn. intros [->|Hin']%elem_of_cons; [done|].
      eapply Hdis; [|done]. cbn. by right. }
    apply Forall_cons in Hrest as [Hw1 Hrest].
    destruct (wake_one _ who n Hw1) as (Hheld1 & Hothers & Hsized1 & Hsem1).
    cbn [fmap list_fmap wake_all foldr fst snd].
    change (foldr wake p granted.*1) with (wake_all granted.*1 p).
    split_and!.
    + rewrite Hheld1, Hheld. cbn. lia.
    + apply Forall_forall. intros w Hin. apply Hothers.
      * intros Heq. eapply (Hdis who); [cbn; by left|].
        apply list_elem_of_fmap. exists w. by rewrite Heq.
      * rewrite Forall_forall in Hrest. by apply Hrest.
    + intros ?. by apply Hsized1, Hsized.
    + by rewrite Hsem1.
Qed.

Hypothesis pool_nonneg : 0 ≤ e_numConcurrentRuns env.

Lemma main_holds_nonneg p : 0 ≤ main_holds env p.
Proof. unfold main_holds. destruct (p_main p); lia. Qed.

Lemma release_inv p i t st s woken :
  sem_inv env p → p_tasks p !! i = Some t → t_pc t = TReleasing st →
  Release 1 (p_sem p) = Some (s, woken) →
  sem_inv env (wake_all woken (set_task i (TDone st) (set_sem s p))).
Proof.
  intros [Hs Hc Hl Hw Hn] Hi Hpc. unfold Release.
  case_decide as Hneg; [done|].
  destruct (notifyWaiters _ _ _) as [[c' ws'] woken'] eqn:Hnotify.
  intros [= <- <-].
  destruct (notifyWaiters_spec _ _ _ _ _ _ Hnotify) as (granted & Hws & -> & -> & Hle).
  set (p0 := set_task i (TDone st)
               (set_sem {| size := size (p_sem p);
                           cur := cur (p_sem p) - 1 +
                                  foldr (λ w acc, w.2 + acc) 0 granted;
                           waiters := ws' |} p)).
  assert (Hw0 : Forall (waiter_ok env p0) (waiters (p_sem p))).
  { apply (waiters_set_task (set_sem _ p) _ i t); [|done|by rewrite Hpc].
    eapply Forall_impl; [exact Hw|]. intros w. by apply waiter_ok_worker. }
  rewrite Hws in Hw0, Hn. apply Forall_app in Hw0 as [Hg Hr].
  rewrite fmap_app in Hn. apply NoDup_app in Hn as (Hng & Hdis & Hnr).
  destruct (wake_granted granted p0 ws' Hg Hr Hng Hdis) as (Hheld & Hrest & Hsized & Hsem).
  split.
  - apply Hsized. unfold sem_sized, p0. cbn. unfold sem_sized in Hs.
    destruct (p_main p); try done; rewrite Hs in Hi; done.
  - rewrite Hsem, Hheld. unfold p0 at 1 2 3. cbn.
    rewrite (held_alter _ i t (TDone st) Hi). unfold units at 1 2, holding. cbn.
    rewrite Hpc. unfold main_holds at 1. cbn. fold (main_holds env p). lia.
  - rewrite Hsem. cbn. lia.
  - by rewrite Hsem.
  - by rewrite Hsem.
Qed.

Lemma sem_step_inv who p p' : sem_inv env p → step env who p = Some p' → sem_inv env p'.
Proof.
  intros Hinv. pose proof Hinv as [Hs Hc Hl Hw Hn].
  unfold step. destruct (p_status p); try done.
  destruct who as [| |i].
  - unfold step_main, sem_sized, main_holds in *.
    destruct (p_main p) as [| | |ts|ts runs [|run rest]|runs|runs|] eqn:Hmain.
    + intros [= <-]. split; unfold sem_sized, main_holds; cbn; try done.
      apply (waiters_set_main (set_monitor _ p)); [|cbn; by rewrite Hmain].
      eapply Forall_impl; [exact Hw|]. intros w. by apply waiter_ok_worker.
    + assert (Hnext : sem_inv env (set_main MNow p)).
      { split; unfold sem_sized, main_holds; cbn; try done.
        apply waiters_set_main; [done|by rewrite Hmain]. }
      destruct (e_dsClientErr env); [intros [= <-]; by apply (sem_inv_frame p)|].
      destruct (e_btClientErr env); intros [= <-]; [by apply (sem_inv_frame p)|done].
    + intros [= <-]. split; unfold sem_sized, main_holds; cbn; try done.
      apply (waiters_set_main (set_clock_reads _ p)); [|cbn; by rewrite Hmain].
      eapply Forall_impl; [exact Hw|]. intros w. by apply waiter_ok_worker.
    + destruct (getRuns _).2 as [[keys runs]|err]; intros [= <-].
      * split; unfold sem_sized, main_holds; cbn; try done.
        -- rewrite Hs. cbn. lia.
        -- constructor.
      * by apply (sem_inv_frame p).
    + destruct (Acquire_cases Main (e_numConcurrentRuns env) (p_sem p))
        as [(Hfree & Hnone & ->)|[(_ & ->) | -> ]]; [|done|]; intros [= <-].
      * split; unfold sem_sized, main_holds; cbn; try done; try lia.
        rewrite Hnone. constructor.
      * split; unfold sem_sized, main_holds; cbn; try done; try lia.
        -- apply Forall_app. split.
           ++ apply (waiters_set_main (set_sem _ p)); [|cbn; by rewrite Hmain].
              eapply Forall_impl; [exact Hw|]. intros w. by apply waiter_ok_worker.
           ++ repeat constructor. cbn. eauto.
        -- rewrite fmap_app. apply NoDup_app. split_and!; [done| |by apply NoDup_singleton].
           intros who Hin ->%list_elem_of_singleton.
           eapply (no_main_waiter p); [done| |done]. by rewrite Hmain.
    + intros [= <-]. split; unfold sem_sized, main_holds; cbn; try done.
      * rewrite held_app. cbn. unfold units, holding. cbn. lia.
      * pose proof (no_main_waiter p _ Hw) as Hnomain.
        apply Forall_forall. intros w Hin.
        pose proof (proj1 (Forall_forall _ _) Hw w Hin) as Hok.
        apply (waiter_ok_worker p); [| |done].
        -- intros j Hj. cbn. unfold waiter_ok in Hok. rewrite Hj in Hok.
           destruct Hok as [_ (t & Ht & _)]. rewrite Ht. by apply lookup_app_l_Some.
        -- intros Hm. exfalso. apply Hnomain; [by rewrite Hmain|].
           apply list_elem_of_fmap. by exists w.
    + done.
    + intros [= <-]. split; unfold sem_sized, main_holds; cbn; try done.
      apply (waiters_set_main (add_log _ p)); [|cbn; by rewrite Hmain].
      eapply Forall_impl; [exact Hw|]. intros w. by apply waiter_ok_worker.
    + done.
  - unfold step_monitor. destruct (p_monitor p); cbn; [|done].
    destruct (monitor_tick _); intros [= <-]; by apply (sem_inv_frame p).
  - unfold step_worker. destruct (p_tasks p !! i) as [t|] eqn:Hi; cbn; [|done].
    assert (Hsized : ∀ pc s, size s = size (p_sem p) →
              sem_sized env (set_task i pc (set_sem s p))).
    { intros pc s Hsz. unfold sem_sized in *. cbn.
      destruct (p_main p); try done; try (rewrite Hs in Hi; done); by rewrite Hsz. }
    destruct (t_pc t) eqn:Hpc.
    + destruct (Acquire_cases (Worker i) 1 (p_sem p))
        as [(Hfree & Hnone & ->)|[(_ & ->) | -> ]]; intros [= <-].
      * split; cbn; try done.
        -- by apply Hsized.
        -- rewrite (held_alter _ i t THolding Hi). unfold units, holding. cbn. rewrite Hpc.
           unfold main_holds in *. cbn. lia.
        -- lia.
        -- rewrite Hnone. constructor.
      * split; cbn; try done.
        -- apply (Hsized TWaiting (p_sem p) eq_refl).
        -- rewrite (held_alter _ i t TWaiting Hi). unfold units, holding. cbn. rewrite Hpc.
           unfold main_holds in *. cbn. lia.
        -- apply (waiters_set_task p _ i t); [done|done|by rewrite Hpc].
      * split; cbn; try done.
        -- by apply Hsized.
        -- rewrite (held_alter _ i t TWaiting Hi). unfold units, holding. cbn. rewrite Hpc.
           unfold main_holds in *. cbn. lia.
        -- apply Forall_app. split.
           ++ apply (waiters_set_task (set_sem _ p) _ i t); [|done|by rewrite Hpc].
              eapply Forall_impl; [exact Hw|]. intros w. by apply waiter_ok_worker.
           ++ apply Forall_singleton. split; cbn; [done|]. exists (set_pc TWaiting t).
              by rewrite list_lookup_alter_eq, Hi.
        -- rewrite fmap_app. apply NoDup_app. split_and!; [done| |by apply NoDup_singleton].
           intros who Hin ->%list_elem_of_singleton.
           eapply (no_worker_waiter p); [done|done| |done]. by rewrite Hpc.
    + done.
    + destruct (run_task env t) as [st|] eqn:Hrun; intros [= <-].
      * split; cbn; try done.
        -- apply (Hsized (TReleasing st) (p_sem p) eq_refl).
        -- rewrite (held_alter _ i t (TReleasing st) Hi). unfold units, holding. cbn.
           rewrite Hpc. unfold main_holds in *. cbn. lia.
        -- apply (waiters_set_task p _ i t); [done|done|by rewrite Hpc].
      * by apply (sem_inv_frame p).
    + destruct (Release _ _) as [[s woken]|] eqn:Hrel; intros [= <-].
      * by eapply release_inv.
      * by apply (sem_inv_frame p).
    + done.
Qed.
End Semaphore.

Lemma sem_exec_inv env sched : ∀ p p',
  0 ≤ e_numConcurrentRuns env →
  sem_inv env p → exec env sched p = Some p' → sem_inv env p'.
Proof.
  induction sched as [|who sched IH]; intros p p' Hpool Hp; cbn.
  - by intros [= <-].
  - destruct (step env who p) as [p1|] eqn:Hstep; cbn; [|done].
    apply IH; [done|]. by eapply sem_step_inv.
Qed.

Lemma init_sem_inv env : sem_inv env init.
Proof. split; cbn; try done; constructor. Qed.

Lemma held_zero ts : held ts = 0 → Forall (λ t, holding t = false) ts.
Proof.
  induction ts as [|t ts IH]; cbn; [constructor|]. intros Hz.
  pose proof (held_nonneg ts). unfold units in Hz.
  destruct (holding t) eqn:Ht; [lia|]. constructor; [done|]. apply IH. lia.
Qed.

Lemma wake_all_status woken p : p_status (wake_all woken p) = p_status p.
Proof.
  induction woken as [|who woken IH]; cbn; [done|].
  rewrite <- IH. destruct who; cbn; try done. by destruct (p_main _).
Qed.

(** What the acquisition of the whole pool does guarantee: no task holds
    a permit, so none is between its [Acquire] and its [Release]. *)
Lemma drained_no_task_in_flight env sched p :
  0 ≤ e_numConcurrentRuns env →
  exec env sched init = Some p → drained p = true →
  Forall (λ t, holding t = false) (p_tasks p).
Proof.
  intros Hpool Hexec Hdrained.
  destruct (sem_exec_inv env sched init p Hpool (init_sem_inv env) Hexec)
    as [Hs Hc Hl _ _].
  apply held_zero. pose proof (held_nonneg (p_tasks p)).
  unfold sem_sized, main_holds, drained in *. destruct (p_main p); try done; lia.
Qed.

Lemma wake_all_other woken p i :
  Worker i ∉ woken → p_tasks (wake_all woken p) !! i = p_tasks p !! i.
Proof.
  induction woken as [|who woken IH]; cbn; [done|].
  intros [Hne Hnotin]%not_elem_of_cons. rewrite <- (IH Hnotin).
  destruct who as [| |j]; cbn; try done.
  - by destruct (p_main _).
  - apply list_lookup_alter_ne. congruence.
Qed.

(** The deferred [sem.Release(1)] of a task never panics. *)
Lemma release_does_not_panic env sched p i t st :
  0 ≤ e_numConcurrentRuns env →
  exec env sched init = Some p → p_status p = Running →
  p_tasks p !! i = Some t → t_pc t = TReleasing st →
  ∃ p', step env (Worker i) p = Some p' ∧ p_status p' = Running ∧
        t_pc <$> p_tasks p' !! i = Some (TDone st).
Proof.
  intros Hpool Hexec Hrun Hi Hpc.
  destruct (sem_exec_inv env sched init p Hpool (init_sem_inv env) Hexec)
    as [Hs Hc Hl Hw Hn].
  pose proof (held_lookup _ _ _ Hi) as Hheld. unfold units, holding in Hheld.
  rewrite Hpc in Hheld. pose proof (main_holds_nonneg env Hpool p).
  assert (Hnotin : Worker i ∉ (waiters (p_sem p)).*1).
  { eapply no_worker_waiter; [done..|]. by rewrite Hpc. }
  unfold step, step_worker. rewrite Hrun, Hi. cbn. rewrite Hpc.
  unfold Release. rewrite decide_False by lia.
  destruct (notifyWaiters _ _ _) as [[c' ws'] woken] eqn:Hnotify.
  destruct (notifyWaiters_spec _ _ _ _ _ _ Hnotify) as (granted & Hws & -> & _).
  eexists. split; [reflexivity|]. split.
  - by rewrite wake_all_status.
  - rewrite wake_all_other.
    + cbn. by rewrite list_lookup_alter_eq, Hi.
    + intros Hin. apply Hnotin. rewrite Hws, fmap_app. apply elem_of_app. by left.
Qed.

(** ** Claims about tasks, enumeration, keys and the monitor *)

(** C5: a task ends early with one logged warning and no bulk write exactly
    when one of the five skip conditions holds (transport error, status
    other than 200, body read error, JSON decoding error, empty result
    list): under such a condition the body returns having logged exactly
    one line, one of the source's five warnings about this run, having
    issued no bulk write and holding no pending cell; a body that returns
    having issued no bulk write, or having logged a warning, was under one
    of the five conditions; the step of a skipped task leaves the process
    running and [main], the semaphore and every other task as they were,
    the task going on to its release with that one warning and no bulk
    write; and the deferred release that follows does not panic and ends
    the task. *)
Theorem C5_skip_exactly_on_five_conditions
    (maxMutations : nat) (family : string)
    (ApplyBulk : list string → list Mutation → list string * option string)
    (http_Get : string → option (Z * option string))
    (json_Unmarshal : string → option TestResultsReport) :
  (∀ ts run, skippable http_Get json_Unmarshal run →
     ∃ w, is_warning w = true ∧
       (w = WarnLoadFailed (RawResultsURL run) run ∨
        (∃ code, w = WarnNonOKStatus code (RawResultsURL run) run) ∨
        w = WarnReadFailed (RawResultsURL run) run ∨
        w = WarnUnmarshalFailed (RawResultsURL run) run ∨
        w = WarnEmptyReport (runID run) (RawResultsURL run)) ∧
       task_body maxMutations family ApplyBulk http_Get json_Unmarshal ts run
       = Some {| muts := []; rows := []; heap := []; calls := []; logs := [w] |}) ∧
  (∀ ts run st,
     task_body maxMutations family ApplyBulk http_Get json_Unmarshal ts run = Some st →
     calls st = [] ∨ (∃ w, w ∈ logs st ∧ is_warning w = true) →
     skippable http_Get json_Unmarshal run) ∧
  (∀ env p i t,
     e_http_Get env = http_Get → e_json_Unmarshal env = json_Unmarshal →
     p_status p = Running → p_tasks p !! i = Some t → t_pc t = THolding →
     skippable http_Get json_Unmarshal (t_run t) →
     ∃ w p', is_warning w = true ∧
       (w = WarnLoadFailed (RawResultsURL (t_run t)) (t_run t) ∨
        (∃ code, w = WarnNonOKStatus code (RawResultsURL (t_run t)) (t_run t)) ∨
        w = WarnReadFailed (RawResultsURL (t_run t)) (t_run t) ∨
        w = WarnUnmarshalFailed (RawResultsURL (t_run t)) (t_run t) ∨
        w = WarnEmptyReport (runID (t_run t)) (RawResultsURL (t_run t))) ∧
       step env (Worker i) p = Some p' ∧
       p_status p' = Running ∧ p_main p' = p_main p ∧ p_sem p' = p_sem p ∧
       p_logs p' = p_logs p ∧
       p_tasks p' !! i =
         Some {| t_run := t_run t; t_ts := t_ts t;
                 t_pc := TReleasing {| muts := []; rows := []; heap := []; calls := [];
                                       logs := [w] |} |} ∧
       ∀ j, j ≠ i → p_tasks p' !! j = p_tasks p !! j) ∧
  (∀ env sched p i t st,
     0 ≤ e_numConcurrentRuns env → exec env sched init = Some p →
     p_status p = Running → p_tasks p !! i = Some t → t_pc t = TReleasing st →
     ∃ p', step env (Worker i) p = Some p' ∧ p_status p' = Running ∧
           t_pc <$> p_tasks p' !! i = Some (TDone st)).
Proof.
  split_and!; [| | |apply release_does_not_panic].
  - intros ts run. apply task_body_skips_with.
  - intros ts run st Hbody Hquiet.
    destruct (task_body_cases _ _ _ _ _ _ _ _ Hbody) as [[Hs _]|(_ & [Hl _ _] & Hc)]; [done|].
    destruct Hquiet as [Hnil|(w & Hw & Hwarn)]; [done|].
    rewrite Forall_forall in Hl. apply Hl in Hw. congruence.
  - intros env p i t <- <- Hrun Hi Hpc Hskip.
    destruct (task_body_skips_with (e_maxMutations env) (e_family env) (e_ApplyBulk env)
                _ _ (t_ts t) (t_run t) Hskip) as (w & Hw & Hline & Hbody).
    exists w, (set_task i (TReleasing (empty_state [w])) p).
    split_and!; try done.
    + unfold step, step_worker. rewrite Hrun, Hi. cbn. rewrite Hpc.
      unfold run_task. by rewrite Hbody.
    + cbn. by rewrite list_lookup_alter_eq, Hi.
    + intros j Hj. cbn. by rewrite list_lookup_alter_ne.
Qed.

(** C6: in every state the process can reach, the clock was not read
    before line 117 and was read exactly once after it; no task exists
    before that reading; and every task carries that one reading, on its
    closure and on every cell of every bulk call it issued. *)
Theorem C6_one_timestamp_for_every_cell (env : Env) (sched : list Tid) (p : Proc) :
  exec env sched init = Some p →
  match p_main p with
  | MStart | MClients | MNow => p_clock_reads p = 0%nat ∧ p_tasks p = []
  | _ => p_clock_reads p = 1%nat
  end ∧
  Forall (λ t, t_ts t = e_clock env 0 ∧
               Forall (λ call, Forall (λ x, x = e_clock env 0) (call_timestamps call))
                      (task_calls t)) (p_tasks p).
Proof.
  intros Hexec. destruct (exec_inv env sched init p (init_inv env) Hexec) as [Hm Ht].
  split; [|exact Ht].
  destruct (p_main p); tauto.
Qed.

Lemma getRuns_loop_items (items : list (Key * TestRun)) : ∀ rest keys runs,
  getRuns_loop ((uncurry NextItem <$> items) ++ rest) keys runs =
  getRuns_loop rest (keys ++ items.*1) (runs ++ items.*2).
Proof.
  induction items as [|[k r] items IH]; intros rest keys runs; cbn.
  - by rewrite !app_nil_r.
  - rewrite IH. by rewrite <- !app_assoc.
Qed.

(** C7: [getRuns] issues the single query for kind [TestRun] ordered by
    [CreatedAt] ascending; it returns all keys and runs the iterator
    yielded before [iterator.Done], in order; an error of the iterator at
    any point is fatal, whatever was read before it, and the fatal exit
    leaves no task and lets nothing move afterwards. *)
Theorem C7_run_list_complete_or_fatal (client_Run : Query → list NextResult) :
  let query := {| q_kind := "TestRun"; q_order := [("CreatedAt", Ascending)] |} in
  (getRuns client_Run).1 = [query] ∧
  (getRuns client_Run).2 = getRuns_loop (client_Run query) [] [] ∧
  (∀ items rest,
     getRuns_loop ((uncurry NextItem <$> items) ++ NextDone :: rest) [] []
     = Returned (items.*1, items.*2)) ∧
  (∀ items,
     getRuns_loop (uncurry NextItem <$> items) [] [] = Returned (items.*1, items.*2)) ∧
  (∀ items err rest,
     getRuns_loop ((uncurry NextItem <$> items) ++ NextError err :: rest) [] []
     = LogFatal err) ∧
  (∀ env p ts err,
     e_client_Run env = client_Run → p_status p = Running → p_main p = MGetRuns ts →
     getRuns_loop (client_Run query) [] [] = LogFatal err →
     step env Main p = Some (fatal (FatalError err) p) ∧
     p_tasks (fatal (FatalError err) p) = p_tasks p ∧
     ∀ who, step env who (fatal (FatalError err) p) = None).
Proof.
  cbn zeta. split_and!; try done.
  - intros items rest. by rewrite getRuns_loop_items.
  - intros items. rewrite <- (app_nil_r (_ <$> items)). by rewrite getRuns_loop_items.
  - intros items err rest. by rewrite getRuns_loop_items.
  - intros env p ts err <- Hrun Hmain Hfatal. split_and!; try done.
    assert (Hg : (getRuns (e_client_Run env)).2 = LogFatal err) by exact Hfatal.
    unfold step, step_main. by rewrite Hrun, Hmain, Hg.
Qed.

(** C8: the column key of a run is
    browser-version-os-osversion@hash#created, the creation time printed in
    UTC as RFC 3339; for firefox 70 on linux 5.0 at abc123 created
    2020-01-01T00:00:00Z it is
    [firefox-70-linux-5.0@abc123#2020-01-01T00:00:00Z]. *)
Theorem C8_column_key_is_run_identity :
  (∀ run, colID run =
     BrowserName run +:+ "-" +:+ BrowserVersion run +:+ "-" +:+ OSName run +:+ "-" +:+
     OSVersion run +:+ "@" +:+ FullRevisionHash run +:+ "#" +:+
     Time.RFC3339 (Time.UTC (CreatedAt run))) ∧
  Time.Date 2020 1 1 0 0 0 = {| Time.unix := 1577836800 |} ∧
  Time.RFC3339 (Time.Date 2020 1 1 0 0 0) = "2020-01-01T00:00:00Z" ∧
  (∀ url, colID {| BrowserName := "firefox"; BrowserVersion := "70"; OSName := "linux";
                   OSVersion := "5.0"; FullRevisionHash := "abc123";
                   CreatedAt := Time.Date 2020 1 1 0 0 0; RawResultsURL := url |}
          = "firefox-70-linux-5.0@abc123#2020-01-01T00:00:00Z").
Proof. split_and!; [done|by vm_compute|by vm_compute|intros url; by vm_compute]. Qed.

Lemma monitor_below samples :
  Forall (λ h, h ≤ maxHeapAlloc) samples →
  monitor samples = (samples ≫= λ h, [EvLog (InfoMonitor h); EvSleep monitorSleep], true).
Proof.
  induction 1 as [|h samples Hh _ IH]; [done|].
  cbn [monitor]. unfold monitor_tick. rewrite decide_False by lia. by rewrite IH.
Qed.

Lemma monitor_above pre h post :
  Forall (λ h, h ≤ maxHeapAlloc) pre → h > maxHeapAlloc →
  monitor (pre ++ h :: post) =
  ((pre ≫= λ h, [EvLog (InfoMonitor h); EvSleep monitorSleep]) ++ [EvFatal FatalOutOfMemory],
   false).
Proof.
  intros Hpre Hh. induction Hpre as [|h' pre Hh' _ IH]; cbn [monitor app].
  - unfold monitor_tick. by rewrite decide_True.
  - unfold monitor_tick at 1. rewrite decide_False by lia. by rewrite IH.
Qed.

(** C9: a tick of the monitor is fatal when the heap sample exceeds
    [maxHeapAlloc] and otherwise logs the sample and sleeps [monitorSleep];
    over samples that never exceed the threshold the loop logs and sleeps
    once per sample and the process stays alive; at the first sample above
    the threshold it is fatal; and the monitor's step of the process does
    exactly that. *)
Theorem C9_monitor_fatal_only_above_threshold :
  (∀ h, monitor_tick h =
        if decide (h > maxHeapAlloc) then TickFatal FatalOutOfMemory
        else TickContinue (InfoMonitor h) monitorSleep) ∧
  (∀ samples, Forall (λ h, h ≤ maxHeapAlloc) samples →
     monitor samples =
     (samples ≫= λ h, [EvLog (InfoMonitor h); EvSleep monitorSleep], true)) ∧
  (∀ pre h post, Forall (λ h, h ≤ maxHeapAlloc) pre → h > maxHeapAlloc →
     monitor (pre ++ h :: post) =
     ((pre ≫= λ h, [EvLog (InfoMonitor h); EvSleep monitorSleep])
        ++ [EvFatal FatalOutOfMemory], false)) ∧
  (∀ env p k, p_status p = Running → p_monitor p = Some k →
     step env Monitor p =
     Some (if decide (e_heapAlloc env k > maxHeapAlloc)
           then fatal FatalOutOfMemory p
           else set_monitor (Some (S k)) (add_log (InfoMonitor (e_heapAlloc env k)) p)) ∧
     p_status (fatal FatalOutOfMemory p) = Fataled ∧
     p_status (set_monitor (Some (S k)) (add_log (InfoMonitor (e_heapAlloc env k)) p))
     = Running).
Proof.
  split_and!.
  - done.
  - apply monitor_below.
  - apply monitor_above.
  - intros env p k Hrun Hmon. split_and!; try done.
    unfold step, step_monitor, monitor_tick. rewrite Hrun, Hmon. cbn. by case_decide.
Qed.

(** ** Scheduling: [main] can report completion while tasks are pending *)

(** C3: evaluation of the process on two runs.  When [main] runs ahead of
    the goroutines it created, its [sem.Acquire(ctx, numConcurrentRuns)]
    is granted at once and it reports completion and returns while both
    tasks have not yet asked for a permit; when it queues behind one
    running task, the tasks that ask later queue behind it, and it is
    granted and returns while such a task still waits. *)
Theorem C3_completion_reported_with_tasks_pending :
  (∃ p, exec env1 [Main; Main; Main; Main; Main; Main; Main; Main] init = Some p ∧
        drained p = true ∧ p_status p = Exited ∧ p_logs p = [InfoFinished 2] ∧
        t_pc <$> p_tasks p = [TSpawned; TSpawned] ∧
        task_finished <$> p_tasks p = [false; false]) ∧
  (∃ p, exec env1 [Main; Main; Main; Main; Main; Worker 0; Main; Main; Worker 1;
                   Worker 0; Worker 0; Main] init = Some p ∧
        drained p = true ∧ p_status p = Exited ∧ p_logs p = [InfoFinished 2] ∧
        task_finished <$> p_tasks p = [true; false] ∧
        (p_tasks p !! 1%nat) ≫= (λ t, Some (t_pc t)) = Some TWaiting).
Proof. split; eexists; split_and!; by vm_compute. Qed.

(** The acquisition of the whole pool does not imply that every task is done. *)
Lemma drained_does_not_imply_finished :
  ¬ ∀ env sched p, exec env sched init = Some p → drained p = true →
      Forall (λ t, task_finished t = true) (p_tasks p).
Proof.
  intros H.
  destruct (exec env1 [Main; Main; Main; Main; Main; Main; Main; Main] init) as [p|] eqn:Hp;
    [|by vm_compute in Hp].
  specialize (H env1 _ p Hp). vm_compute in Hp. injection Hp as <-.
  specialize (H eq_refl). by inversion H.
Qed.

(** ** The theorems at concrete inputs *)

(** Five cells through batches of two. *)
Lemma C4_flush_witness :
  (0 < 2)%nat ∧
  ∃ st, set_all 2 always_ok sample_calls (empty_state []) = Some st ∧
        (length (muts st) ≤ 2)%nat ∧
        Forall (λ call, length (bc_muts call) = 2%nat) (calls st) ∧
        length sample_calls = (length (calls st) * 2 + length (muts st))%nat.
Proof.
  split; [lia|].
  destruct (C4_flush_exactly_when_full 2 always_ok sample_calls [] ltac:(lia))
    as (st & Hrun & Hbound & Hfull & Hcount & _).
  exists st. split_and!; assumption.
Defined.

Lemma C10_aligned_witness :
  (0 < 2)%nat ∧
  ∃ st st', set_all 2 always_ok sample_calls (empty_state []) = Some st ∧
    finish always_ok st = Some st' ∧
    length (rows st) = length (muts st) ∧
    aligned sample_calls (rows st) (deref (heap st) <$> muts st) ∧
    Forall (λ call, length (bc_rows call) = length (bc_muts call) ∧
                    aligned sample_calls (bc_rows call) (bc_muts call)) (calls st').
Proof.
  split; [lia|].
  apply (C10_rows_and_mutations_aligned 2 always_ok sample_calls []). lia.
Defined.

Lemma C6_timestamp_witness :
  ∃ p, exec env1 full_schedule init = Some p ∧
    task_calls <$> p_tasks p =
      [[{| bc_rows := ["/a.html"; "/b.html"];
           bc_muts := [[SetCell "runs" "firefox-70-linux-5.0@abc123#2020-01-01T00:00:00Z"
                          1000 "OK$PASS#fine"];
                       [SetCell "runs" "firefox-70-linux-5.0@abc123#2020-01-01T00:00:00Z"
                          1000 "ERROR#boom"]] |}]; []] ∧
    Forall (λ t, t_ts t = e_clock env1 0 ∧
                 Forall (λ call, Forall (λ x, x = e_clock env1 0) (call_timestamps call))
                        (task_calls t)) (p_tasks p).
Proof.
  destruct (exec env1 full_schedule init) as [p|] eqn:Hp; [|by vm_compute in Hp].
  exists p. split; [reflexivity|].
  split.
  - vm_compute in Hp. injection Hp as <-. reflexivity.
  - apply (C6_one_timestamp_for_every_cell env1 full_schedule p Hp).
Defined.

(** ** Evaluations *)

Example RFC3339_reference :
  Forall (λ us, Time.RFC3339 {| Time.unix := us.1 |} = us.2) reference_instants.
Proof. repeat (constructor; [by vm_compute|]). constructor. Qed.

Example RFC3339_epoch : Time.RFC3339 {| Time.unix := 0 |} = "1970-01-01T00:00:00Z".
Proof. by vm_compute. Qed.

Example RFC3339_before_epoch : Time.RFC3339 {| Time.unix := -1 |} = "1969-12-31T23:59:59Z".
Proof. by vm_compute. Qed.

Example RFC3339_leap_day :
  Time.RFC3339 (Time.Date 2024 2 29 7 8 9) = "2024-02-29T07:08:09Z".
Proof. by vm_compute. Qed.

Example RFC3339_end_of_year :
  Time.RFC3339 (Time.Date 1999 12 31 23 59 58) = "1999-12-31T23:59:58Z".
Proof. by vm_compute. Qed.

Example Date_2020 : Time.unix (Time.Date 2020 1 1 0 0 0) = 1577836800.
Proof. by vm_compute. Qed.

Example table_row1 : table_value "OK" (Some "") None = "OK".
Proof. reflexivity. Qed.
Example table_row2 : table_value "ERROR" (Some "boom") None = "ERROR#boom".
Proof. reflexivity. Qed.
Example table_row3 : table_value "OK" None (Some ("PASS", Some "")) = "OK$PASS".
Proof. reflexivity. Qed.
Example table_row4 : table_value "OK" None (Some ("FAIL", Some "bad")) = "OK$FAIL#bad".
Proof. reflexivity. Qed.
Example table_row5 : table_value "ERROR" (Some "boom") (Some ("PASS", None)) = "ERROR#boom$PASS".
Proof. reflexivity. Qed.
Example table_row6 :
  table_value "ERROR" (Some "boom") (Some ("FAIL", Some "bad")) = "ERROR#boom$FAIL#bad".
Proof. reflexivity. Qed.

(** Five cells, batches of two: two full bulk writes, then the remainder. *)
Example batches_of_two :
  (λ st, bc_rows <$> calls st) <$>
    (set_all 2 always_ok sample_calls (empty_state []) ≫= finish always_ok)
  = Some [["/a"; "/b"]; ["/c"; "/d"]; ["/e"]].
Proof. reflexivity. Qed.

(** A batch size of zero makes the success log line index an empty slice. *)
Example batch_size_zero_panics :
  set_all 0 always_ok sample_calls (empty_state []) = None.
Proof. reflexivity. Qed.

(** Two results, one of them with one sub-result, give two cells. *)
Example report1_calls :
  c_value <$> report_calls "runs" run1 1000 report1 = ["OK$PASS#fine"; "ERROR#boom"].
Proof. reflexivity. Qed.

(** * Further properties *)

(** ** Bulk writes of a task *)

Lemma bulk_write_line ApplyBulk st st' :
  bulk_write ApplyBulk st = Some st' →
  st' = emit {| bc_rows := rows st; bc_muts := deref (heap st) <$> muts st |}
             (outcome_line ApplyBulk
                {| bc_rows := rows st; bc_muts := deref (heap st) <$> muts st |}) st.
Proof.
  unfold bulk_write, outcome_line. cbn. destruct (ApplyBulk _ _) as [errs err].
  case_decide; cbn; [by intros [= <-]|].
  destruct err; cbn; [by intros [= <-]|].
  destruct (rows st !! 0%nat); cbn; [|done]. by intros [= <-].
Qed.

Section Log.
Variable maxMutations : nat.
Variable ApplyBulk : list string → list Mutation → list string * option string.

Lemma bulk_write_log ls st st' :
  log_inv ApplyBulk ls st → bulk_write ApplyBulk st = Some st' → log_inv ApplyBulk ls st'.
Proof.
  unfold log_inv. intros Hl ->%bulk_write_line. cbn.
  by rewrite Hl, fmap_app, <- app_assoc.
Qed.

Lemma set_log ls c st st' :
  log_inv ApplyBulk ls st → set maxMutations ApplyBulk c st = Some st' →
  log_inv ApplyBulk ls st'.
Proof.
  unfold set. intros Hl. case_decide.
  - destruct (bulk_write _ _) as [st1|] eqn:Hbw; cbn; [|done]. intros [= <-].
    apply (bulk_write_log ls) in Hbw; [|done]. exact Hbw.
  - cbn. intros [= <-]. exact Hl.
Qed.

Lemma set_all_log ls cs : ∀ st st',
  log_inv ApplyBulk ls st → set_all maxMutations ApplyBulk cs st = Some st' →
  log_inv ApplyBulk ls st'.
Proof.
  induction cs as [|c cs IH]; intros st st' Hl; cbn; [by intros [= <-]|].
  destruct (set _ _ c st) as [st1|] eqn:Hset; cbn; [|done].
  apply IH. by eapply set_log.
Qed.

Lemma finish_log ls st st' :
  log_inv ApplyBulk ls st → finish ApplyBulk st = Some st' → log_inv ApplyBulk ls st'.
Proof.
  unfold finish. intros Hl. case_decide; [by apply bulk_write_log|by intros [= <-]].
Qed.
End Log.

(** Lists cut in consecutive pieces of [n], the last one shorter or equal. *)
Lemma pieces_lookup {A} (n : nat) (B : list (list A)) : ∀ (P : list A) (k : nat),
  Forall (λ q, length q = n) B → (length P ≤ n)%nat → (k ≤ length B)%nat →
  (B ++ [P]) !! k = Some (take n (drop (k * n) (concat B ++ P))).
Proof.
  induction B as [|q B IH]; intros P k HB HP Hk.
  - assert (k = 0)%nat as -> by (cbn in Hk; lia). cbn. by rewrite take_ge.
  - apply Forall_cons in HB as [Hq HB]. destruct k as [|k].
    + change ((q :: B) ++ [P]) with (q :: (B ++ [P])).
      change (concat (q :: B)) with (q ++ concat B).
      rewrite <- app_assoc. cbn [lookup list_lookup Nat.mul]. rewrite drop_0.
      by rewrite take_app_length'.
    + change ((q :: B) ++ [P]) with (q :: (B ++ [P])).
      change (concat (q :: B)) with (q ++ concat B).
      rewrite <- app_assoc. cbn [lookup list_lookup Nat.mul].
      rewrite <- Hq at 2. rewrite drop_app_add' by done.
      apply IH; [done..|cbn in Hk; lia].
Qed.

Section Batches.
Variable maxMutations : nat.
Variable ApplyBulk : list string → list Mutation → list string * option string.
Hypothesis max_pos : (0 < maxMutations)%nat.

(** The bulk writes of a complete accumulation. *)
Lemma final_batches cs ls :
  ∃ st st' L,
    set_all maxMutations ApplyBulk cs (empty_state ls) = Some st ∧
    finish ApplyBulk st = Some st' ∧
    calls st' = call_of <$> L ∧ concat L = cs ∧
    Forall (λ q, 0 < length q ≤ maxMutations)%nat L ∧
    (∀ k, L !! k = if decide (k * maxMutations < length cs)%nat
                   then Some (take maxMutations (drop (k * maxMutations) cs))
                   else None) ∧
    logs st' = ls ++ (outcome_line ApplyBulk <$> calls st').
Proof.
  destruct (set_all_inv maxMutations ApplyBulk max_pos cs [] [] (empty_state ls)
              (acc_inv_empty maxMutations ls))
    as (st & B & P & Hrun & Hinv & Hcat & Hne).
  cbn in Hcat.
  destruct (finish_inv maxMutations ApplyBulk B P st Hinv) as (st' & Hfin & Hcase).
  pose proof Hinv as [Hr Hm Ha Hc Hf Hb].
  assert (Hlog : logs st' = ls ++ (outcome_line ApplyBulk <$> calls st')).
  { eapply finish_log; [|done]. eapply set_all_log; [|done]. unfold log_inv. cbn.
    by rewrite app_nil_r. }
  assert (Hlen : length cs = (length B * maxMutations + length P)%nat).
  { by rewrite <- Hcat, length_app, (concat_full_length maxMutations B Hf). }
  assert (HfullB : Forall (λ q, 0 < length q ≤ maxMutations)%nat B).
  { eapply Forall_impl; [exact Hf|]. intros q Hq. cbn in Hq. lia. }
  exists st, st'. destruct (decide (P = [])) as [->|HP].
  - assert (cs = []) as ->.
    { destruct cs; [done|]. exfalso. apply Hne; [by right|done]. }
    assert (B = []) as ->.
    { destruct B as [|q B]; [done|]. apply Forall_cons in Hf as [Hq _].
      cbn in Hlen. lia. }
    subst st'. exists []. split_and!; done.
  - destruct Hcase as [line ->]. exists (B ++ [P]). split_and!; try done.
    + cbn. by rewrite Hc, fmap_app.
    + by rewrite concat_app; cbn; rewrite app_nil_r.
    + apply Forall_app. split; [done|]. repeat constructor; [|done].
      destruct P; [done|cbn; lia].
    + intros k. assert (0 < length P)%nat by (destruct P; [done|cbn; lia]).
      case_decide as Hk.
      * rewrite <- Hcat. apply pieces_lookup; [done..|]. 
        destruct (decide (k ≤ length B)%nat); [done|]. exfalso.
        assert (S (length B) * maxMutations ≤ k * maxMutations)%nat
          by (apply Nat.mul_le_mono_r; lia). lia.
      * apply lookup_ge_None. rewrite length_app. cbn.
        destruct (decide (length B + 1 ≤ k)%nat); [done|]. exfalso. apply Hk.
        assert (k * maxMutations ≤ length B * maxMutations)%nat
          by (apply Nat.mul_le_mono_r; lia). lia.
Qed.
End Batches.

Lemma concat_call_rows (L : list (list SetCall)) :
  concat (bc_rows <$> (call_of <$> L)) = c_row <$> concat L.
Proof. induction L as [|q L IH]; cbn; [done|]. by rewrite fmap_app, IH. Qed.

Lemma concat_call_muts (L : list (list SetCall)) :
  concat (bc_muts <$> (call_of <$> L)) = mutation_of <$> concat L.
Proof. induction L as [|q L IH]; cbn; [done|]. by rewrite fmap_app, IH. Qed.

Section Written.
Variable maxMutations : nat.
Variable family : string.
Variable ApplyBulk : list string → list Mutation → list string * option string.
Variable http_Get : string → option (Z * option string).
Variable json_Unmarshal : string → option TestResultsReport.
Variable ts : Timestamp.
Variable run : TestRun.
Hypothesis max_pos : (0 < maxMutations)%nat.

Lemma task_body_written data report :
  http_Get (RawResultsURL run) = Some (200%Z, Some data) →
  json_Unmarshal data = Some report → Results report ≠ [] →
  Forall is_Some (Results report) →
  ∃ st, task_body maxMutations family ApplyBulk http_Get json_Unmarshal ts run = Some st ∧
    concat (bc_rows <$> calls st) = c_row <$> report_calls family run ts report ∧
    concat (bc_muts <$> calls st) = mutation_of <$> report_calls family run ts report ∧
    Forall (λ call, 0 < length (bc_rows call) ≤ maxMutations)%nat (calls st) ∧
    logs st = InfoGathering (length (Results report)) :: (outcome_line ApplyBulk <$> calls st).
Proof.
  intros Hget Hjson Hres Hpresent.
  destruct (final_batches maxMutations ApplyBulk max_pos
              (report_calls family run ts report) [InfoGathering (length (Results report))])
    as (st & st' & L & Hrun & Hfin & Hcalls & Hcat & Hsize & _ & Hlogs).
  exists st'. unfold task_body. rewrite Hget, Hjson.
  rewrite decide_False by (intros ?; done).
  rewrite decide_False by (by destruct (Results report)).
  rewrite for_results_present by done. fold (report_calls family run ts report).
  rewrite Hrun. cbn. split_and!; try done.
  - by rewrite Hcalls, concat_call_rows, Hcat.
  - by rewrite Hcalls, concat_call_muts, Hcat.
  - rewrite Hcalls. apply Forall_fmap. eapply Forall_impl; [exact Hsize|].
    intros q Hq. cbn. by rewrite length_fmap.
Qed.

Lemma task_body_total :
  (∀ data report, json_Unmarshal data = Some report → Forall is_Some (Results report)) →
  ∃ st, task_body maxMutations family ApplyBulk http_Get json_Unmarshal ts run = Some st.
Proof.
  intros Hpresent.
  destruct (http_Get (RawResultsURL run)) as [[code b]|] eqn:Hget.
  2:{ unfold task_body. rewrite Hget. by eexists. }
  destruct (decide (code ≠ 200%Z)) as [Hcode|Hcode].
  { unfold task_body. rewrite Hget, decide_True by done. by eexists. }
  assert (code = 200%Z) as -> by lia.
  destruct b as [data|].
  2:{ unfold task_body. rewrite Hget, decide_False by done. by eexists. }
  destruct (json_Unmarshal data) as [report|] eqn:Hjson.
  2:{ unfold task_body. rewrite Hget, decide_False, Hjson by done. by eexists. }
  destruct (decide (Results report = [])) as [Hres|Hres].
  { unfold task_body. rewrite Hget, decide_False, Hjson, Hres by done. by eexists. }
  destruct (task_body_written data report Hget Hjson Hres (Hpresent _ _ Hjson))
    as (st & Hst & _).
  by exists st.
Qed.

Lemma nil_result (results : list (option TestResults)) :
  ¬ Forall is_Some results ↔ None ∈ results.
Proof.
  split.
  - induction results as [|[res|] results IH]; intros Hnot.
    + exfalso. apply Hnot. constructor.
    + right. apply IH. intros Hall. apply Hnot. constructor; [by eexists|done].
    + left.
  - intros Hin Hall. rewrite Forall_forall in Hall. by destruct (Hall None Hin).
Qed.

Lemma task_body_nil data report :
  http_Get (RawResultsURL run) = Some (200%Z, Some data) →
  json_Unmarshal data = Some report → ¬ Forall is_Some (Results report) →
  task_body maxMutations family ApplyBulk http_Get json_Unmarshal ts run = None.
Proof.
  intros Hget Hjson Hnil. unfold task_body. rewrite Hget, Hjson.
  rewrite decide_False by (intros ?; done).
  rewrite decide_False by (intros Hlen; apply Hnil; by destruct (Results report)).
  by rewrite for_results_nil.
Qed.

Lemma task_body_cells st :
  task_body maxMutations family ApplyBulk http_Get json_Unmarshal ts run = Some st →
  Forall (λ call, Forall (λ m : Mutation, ∃ v, m = [SetCell family (colID run) ts v]) (bc_muts call))
         (calls st).
Proof.
  intros Hbody.
  destruct (task_body_cases _ _ _ _ _ _ _ _ Hbody) as [[_ (w & _ & ->)]|(Hns & _ & _)];
    [constructor|].
  destruct (http_Get (RawResultsURL run)) as [[code b]|] eqn:Hget;
    [|exfalso; apply Hns; by left].
  destruct (decide (code = 200%Z)) as [->|Hcode];
    [|exfalso; apply Hns; right; left; eauto].
  destruct b as [data|]; [|exfalso; apply Hns; do 2 right; by left].
  destruct (json_Unmarshal data) as [report|] eqn:Hjson;
    [|exfalso; apply Hns; do 3 right; left; eauto].
  destruct (decide (Results report = [])) as [Hres|Hres];
    [exfalso; apply Hns; do 4 right; eauto|].
  assert (Hpresent : Forall is_Some (Results report)).
  { destruct (decide (Forall is_Some (Results report))) as [Hall|Hnil]; [done|].
    by rewrite (task_body_nil data report Hget Hjson Hnil) in Hbody. }
  destruct (task_body_written data report Hget Hjson Hres Hpresent)
    as (st' & Hst' & _ & Hmuts & _).
  assert (Heq : st' = st) by congruence. subst st'.
  assert (Hall : Forall (λ m : Mutation, ∃ v, m = [SetCell family (colID run) ts v])
                   (concat (bc_muts <$> calls st))).
  { rewrite Hmuts. apply Forall_fmap, Forall_forall.
    intros c (res & _ & Hc)%results_calls_elem. unfold mutation_of.
    exists (c_value c). unfold result_calls in Hc. case_decide.
    - case_match; apply list_elem_of_singleton in Hc as ->; done.
    - apply list_elem_of_fmap in Hc as (sub & -> & _). unfold sub_call.
      by repeat case_match. }
  apply (proj1 (Forall_concat _ _)) in Hall.
  apply (proj1 (Forall_fmap _ _ _)) in Hall. exact Hall.
Qed.
End Written.

(** X1: with a positive batch size, the bulk writes of a complete
    accumulation (all additions, then the final flush) are the consecutive
    slices of the added cells: the k-th carries cells k*max to (k+1)*max,
    and there are as many as it takes; no cell is dropped, repeated or
    reordered. *)
Theorem X1_bulk_calls_are_consecutive_slices
    (maxMutations : nat) (ApplyBulk : list string → list Mutation → list string * option string)
    (cs : list SetCall) (ls : list LogLine) :
  (0 < maxMutations)%nat →
  ∃ st st', set_all maxMutations ApplyBulk cs (empty_state ls) = Some st ∧
    finish ApplyBulk st = Some st' ∧
    ∀ k, calls st' !! k =
         if decide (k * maxMutations < length cs)%nat
         then Some (call_of (take maxMutations (drop (k * maxMutations) cs)))
         else None.
Proof.
  intros Hpos.
  destruct (final_batches maxMutations ApplyBulk Hpos cs ls)
    as (st & st' & L & Hrun & Hfin & Hcalls & _ & _ & Hk & _).
  exists st, st'. split_and!; try done.
  intros k. rewrite Hcalls, list_lookup_fmap, Hk. by case_decide.
Qed.

(** X2: the outcomes the store reports do not change what is written: for
    any two stores the same bulk writes are issued, no write is repeated
    and none is given up; each bulk write leaves exactly one log line, by
    its outcome. *)
Theorem X2_store_errors_change_only_the_log
    (maxMutations : nat)
    (ApplyBulk ApplyBulk' : list string → list Mutation → list string * option string)
    (cs : list SetCall) (ls : list LogLine) :
  (0 < maxMutations)%nat →
  ∃ st st',
    set_all maxMutations ApplyBulk cs (empty_state ls) ≫= finish ApplyBulk = Some st ∧
    set_all maxMutations ApplyBulk' cs (empty_state ls) ≫= finish ApplyBulk' = Some st' ∧
    calls st = calls st' ∧
    logs st = ls ++ (outcome_line ApplyBulk <$> calls st) ∧
    logs st' = ls ++ (outcome_line ApplyBulk' <$> calls st').
Proof.
  intros Hpos.
  destruct (final_batches maxMutations ApplyBulk Hpos cs ls)
    as (st0 & st & L & Hrun & Hfin & Hcalls & _ & _ & Hk & Hlogs).
  destruct (final_batches maxMutations ApplyBulk' Hpos cs ls)
    as (st0' & st' & L' & Hrun' & Hfin' & Hcalls' & _ & _ & Hk' & Hlogs').
  exists st, st'. rewrite Hrun, Hrun'. cbn. split_and!; try done.
  rewrite Hcalls, Hcalls'. f_equal. apply list_eq. intros k. by rewrite Hk, Hk'.
Qed.

(** X3: a task whose fetch and decoding succeed on a non-empty report
    none of whose results is nil does not panic; its bulk writes carry, in
    report order, exactly the row keys and mutations of the report's cells,
    in non-empty batches of at most the batch size; its log is the
    gathering line followed by one line per bulk write. *)
Theorem X3_task_writes_the_report_in_order
    (maxMutations : nat) (family : string)
    (ApplyBulk : list string → list Mutation → list string * option string)
    (http_Get : string → option (Z * option string))
    (json_Unmarshal : string → option TestResultsReport)
    (ts : Timestamp) (run : TestRun) (data : string) (report : TestResultsReport) :
  (0 < maxMutations)%nat →
  http_Get (RawResultsURL run) = Some (200%Z, Some data) →
  json_Unmarshal data = Some report → Results report ≠ [] →
  Forall is_Some (Results report) →
  ∃ st, task_body maxMutations family ApplyBulk http_Get json_Unmarshal ts run = Some st ∧
    concat (bc_rows <$> calls st) = c_row <$> report_calls family run ts report ∧
    concat (bc_muts <$> calls st) = mutation_of <$> report_calls family run ts report ∧
    Forall (λ call, 0 < length (bc_rows call) ≤ maxMutations)%nat (calls st) ∧
    logs st = InfoGathering (length (Results report)) :: (outcome_line ApplyBulk <$> calls st).
Proof. intros Hpos. by apply task_body_written. Qed.

(** X4: every mutation a task hands to the store sets exactly one cell, in
    the configured family, in the column of the task's own run, at the
    task's timestamp. *)
Theorem X4_every_mutation_sets_one_cell_of_the_run_column
    (maxMutations : nat) (family : string)
    (ApplyBulk : list string → list Mutation → list string * option string)
    (http_Get : string → option (Z * option string))
    (json_Unmarshal : string → option TestResultsReport)
    (ts : Timestamp) (run : TestRun) (st : TaskState) :
  (0 < maxMutations)%nat →
  task_body maxMutations family ApplyBulk http_Get json_Unmarshal ts run = Some st →
  Forall (λ call, Forall (λ m : Mutation, ∃ v, m = [SetCell family (colID run) ts v]) (bc_muts call))
         (calls st).
Proof. intros Hpos. by apply task_body_cells. Qed.

(** X15: a nil result is the one way a task panics.  With a positive
    batch size, the body of a task panics exactly when the fetch and the
    decoding succeed and the decoded report holds a nil result, which the
    loop of line 179 dereferences; the step of such a task ends the whole
    process in a panic. *)
Theorem X15_nil_result_is_the_one_panic_of_a_task (env : Env) :
  (0 < e_maxMutations env)%nat →
  (∀ ts run,
     task_body (e_maxMutations env) (e_family env) (e_ApplyBulk env) (e_http_Get env)
       (e_json_Unmarshal env) ts run = None ↔
     ∃ data report, e_http_Get env (RawResultsURL run) = Some (200, Some data) ∧
                    e_json_Unmarshal env data = Some report ∧
                    None ∈ Results report) ∧
  (∀ p i t data report,
     p_status p = Running → p_tasks p !! i = Some t → t_pc t = THolding →
     e_http_Get env (RawResultsURL (t_run t)) = Some (200, Some data) →
     e_json_Unmarshal env data = Some report → None ∈ Results report →
     ∃ p', step env (Worker i) p = Some p' ∧ p_status p' = Panicked).
Proof.
  intros Hmax. split.
  - intros ts run. split.
    + intros Hbody.
      destruct (e_http_Get env (RawResultsURL run)) as [[code b]|] eqn:Hget.
      2:{ unfold task_body in Hbody. by rewrite Hget in Hbody. }
      destruct (decide (code ≠ 200)) as [Hcode|Hcode].
      { unfold task_body in Hbody. by rewrite Hget, decide_True in Hbody. }
      assert (code = 200) as -> by lia.
      destruct b as [data|].
      2:{ unfold task_body in Hbody. by rewrite Hget, decide_False in Hbody. }
      destruct (e_json_Unmarshal env data) as [report|] eqn:Hjson.
      2:{ unfold task_body in Hbody. by rewrite Hget, decide_False, Hjson in Hbody. }
      exists data, report. split_and!; [done..|]. apply nil_result. intros Hpresent.
      destruct (decide (Results report = [])) as [Hres|Hres].
      { unfold task_body in Hbody. by rewrite Hget, decide_False, Hjson, Hres in Hbody. }
      destruct (task_body_written (e_maxMutations env) (e_family env) (e_ApplyBulk env)
                  (e_http_Get env) (e_json_Unmarshal env) ts run Hmax data report
                  Hget Hjson Hres Hpresent) as (st & Hst & _).
      congruence.
    + intros (data & report & Hget & Hjson & Hnil).
      eapply task_body_nil; [done..|]. by apply nil_result.
  - intros p i t data report Hrun Hi Hpc Hget Hjson Hnil.
    exists (set_status Panicked p). split; [|done].
    unfold step, step_worker. rewrite Hrun, Hi. cbn. rewrite Hpc. unfold run_task.
    erewrite task_body_nil; [done..|]. by apply nil_result.
Qed.

(** ** Run identities and enumeration *)

Lemma free_of_cons c a s : free_of c (String a s) = true → a ≠ c ∧ free_of c s = true.
Proof.
  cbn. intros [Hne Hs]%andb_prop. split; [|done].
  intros ->. by rewrite Ascii.eqb_refl in Hne.
Qed.

Lemma split_at_separator c s1 : ∀ s2 t1 t2,
  free_of c s1 = true → free_of c s2 = true →
  s1 +:+ String c t1 = s2 +:+ String c t2 → s1 = s2 ∧ t1 = t2.
Proof.
  induction s1 as [|a s1 IH]; intros [|b s2] t1 t2 H1 H2.
  - by intros [= ->].
  - intros [= <- _]. by destruct (free_of_cons _ _ _ H2).
  - intros [= -> _]. by destruct (free_of_cons _ _ _ H1).
  - intros [= -> Heq]. apply free_of_cons in H1 as [_ H1]. apply free_of_cons in H2 as [_ H2].
    destruct (IH _ _ _ H1 H2 Heq) as [-> ->]. done.
Qed.

(** X5: when browser name, browser version and OS name hold no [-], the OS
    version no [@] and the revision hash no [#], equal column keys come
    from equal identity fields and equal printed creation times. *)
Theorem X5_column_key_determines_identity (r1 r2 : TestRun) :
  separator_free r1 → separator_free r2 → colID r1 = colID r2 →
  BrowserName r1 = BrowserName r2 ∧ BrowserVersion r1 = BrowserVersion r2 ∧
  OSName r1 = OSName r2 ∧ OSVersion r1 = OSVersion r2 ∧
  FullRevisionHash r1 = FullRevisionHash r2 ∧
  Time.RFC3339 (Time.UTC (CreatedAt r1)) = Time.RFC3339 (Time.UTC (CreatedAt r2)).
Proof.
  intros (Hb1 & Hv1 & Ho1 & Hov1 & Hh1) (Hb2 & Hv2 & Ho2 & Hov2 & Hh2).
  unfold colID, runID. cbn [String.append]. intros Heq.
  apply split_at_separator in Heq as [-> Heq]; [|done..].
  apply split_at_separator in Heq as [-> Heq]; [|done..].
  apply split_at_separator in Heq as [-> Heq]; [|done..].
  apply split_at_separator in Heq as [-> Heq]; [|done..].
  apply split_at_separator in Heq as [-> Heq]; [|done..].
  done.
Qed.

Lemma append_assoc_string (a b c : string) : (a +:+ b) +:+ c = a +:+ (b +:+ c).
Proof. induction a as [|x a IH]; [done|]. exact (f_equal (String x) IH). Qed.

(** X6: with a [-] in a field the column key is ambiguous: moving the part
    after the [-] from the browser name to the browser version gives a
    different run with the same column key. *)
Theorem X6_column_key_ambiguous_with_separators
    (a b c os osv hash url : string) (created : Time.Time) :
  let r1 := {| BrowserName := a +:+ "-" +:+ b; BrowserVersion := c; OSName := os;
               OSVersion := osv; FullRevisionHash := hash; CreatedAt := created;
               RawResultsURL := url |} in
  let r2 := {| BrowserName := a; BrowserVersion := b +:+ "-" +:+ c; OSName := os;
               OSVersion := osv; FullRevisionHash := hash; CreatedAt := created;
               RawResultsURL := url |} in
  r1 ≠ r2 ∧ colID r1 = colID r2.
Proof.
  cbn zeta. split.
  - intros [= Hname _]. symmetry in Hname. by apply append_nonempty_neq in Hname.
  - unfold colID, runID. cbn [BrowserName BrowserVersion OSName OSVersion FullRevisionHash
                              CreatedAt].
    by rewrite !append_assoc_string.
Qed.

Lemma script_shape (it : list NextResult) :
  ∃ items, it = items_of items ∨
           (∃ rest, it = items_of items ++ NextDone :: rest) ∨
           (∃ err rest, it = items_of items ++ NextError err :: rest).
Proof.
  induction it as [|[key run| |err] it IH].
  - exists []. by left.
  - destruct IH as [items [->|[[rest ->]|(err & rest & ->)]]]; exists ((key, run) :: items).
    + by left.
    + right; left. by exists rest.
    + right; right. by exists err, rest.
  - exists []. right; left. by exists it.
  - exists []. right; right. by exists err, it.
Qed.

(** X7: whatever the iterator answers, a list returned by [getRuns] holds
    as many keys as runs, those of all entities before the first
    [iterator.Done] (or the end), and a fatal exit comes from an error that
    precedes any [iterator.Done]. *)
Theorem X7_getRuns_outcome_read_back (it : list NextResult) :
  match getRuns_loop it [] [] with
  | Returned (keys, runs) =>
      length keys = length runs ∧
      ∃ items, keys = items.*1 ∧ runs = items.*2 ∧
               (it = items_of items ∨ ∃ rest, it = items_of items ++ NextDone :: rest)
  | LogFatal err => ∃ items rest, it = items_of items ++ NextError err :: rest
  end.
Proof.
  destruct (script_shape it) as [items [->|[[rest ->]|(err & rest & ->)]]]; unfold items_of.
  - rewrite <- (app_nil_r (_ <$> items)), getRuns_loop_items. cbn.
    split; [by rewrite !length_fmap|]. exists items. rewrite app_nil_r. eauto.
  - rewrite getRuns_loop_items. cbn.
    split; [by rewrite !length_fmap|]. exists items. eauto.
  - rewrite getRuns_loop_items. cbn. eauto.
Qed.

(** ** Encoded values *)

Lemma free_of_app c s t : free_of c (s +:+ t) = free_of c s && free_of c t.
Proof.
  induction s as [|a s IH]; [done|].
  change (negb (Ascii.eqb a c) && free_of c (s +:+ t)
          = negb (Ascii.eqb a c) && free_of c s && free_of c t).
  by rewrite IH, andb_assoc.
Qed.

Lemma free_of_separator c s t : free_of c (s +:+ String c t) = false.
Proof.
  rewrite free_of_app. cbn. rewrite Ascii.eqb_refl. cbn. by rewrite andb_false_r.
Qed.

Lemma tagged_some s m : tagged s (Some m) = s +:+ String "#" m.
Proof. reflexivity. Qed.

Lemma tagged_inj s1 m1 s2 m2 :
  free_of "#" s1 = true → free_of "#" s2 = true →
  tagged s1 m1 = tagged s2 m2 → s1 = s2 ∧ m1 = m2.
Proof.
  intros H1 H2. destruct m1 as [m1|], m2 as [m2|]; rewrite ?tagged_some; intros Heq.
  - apply split_at_separator in Heq as [-> ->]; done.
  - cbn in Heq. rewrite <- Heq, free_of_separator in H2. done.
  - cbn in Heq. rewrite Heq, free_of_separator in H1. done.
  - done.
Qed.

Lemma sub_call_tagged family run ts res sub :
  c_value (sub_call family run ts res sub) =
  tagged (Status res) (nonEmpty (Message res)) +:+ "$" +:+
  tagged (SubStatus sub) (nonEmpty (SubMessage sub)).
Proof.
  unfold sub_call, tagged.
  destruct (nonEmpty (Message res)), (nonEmpty (SubMessage sub)); cbn [c_value cell];
    by rewrite <- ?append_assoc_string.
Qed.

(** X13: when the statuses hold no [#], the result's status and message no
    [$], the value of a sub-result's cell determines the status, the
    message (if any), the sub-status and the sub-message (if any). *)
Theorem X13_value_decodes_without_separators
    (family family' : string) (run run' : TestRun) (ts ts' : Timestamp)
    (res res' : TestResults) (sub sub' : SubTest) :
  plain res sub → plain res' sub' →
  c_value (sub_call family run ts res sub) = c_value (sub_call family' run' ts' res' sub') →
  Status res = Status res' ∧ nonEmpty (Message res) = nonEmpty (Message res') ∧
  SubStatus sub = SubStatus sub' ∧ nonEmpty (SubMessage sub) = nonEmpty (SubMessage sub').
Proof.
  intros (Hs & Hd & Hm & Hss) (Hs' & Hd' & Hm' & Hss'). rewrite !sub_call_tagged.
  intros Heq. apply split_at_separator in Heq as [Hl Hr].
  - apply tagged_inj in Hl as [-> ->]; [|done..].
    apply tagged_inj in Hr as [-> ->]; done.
  - destruct (nonEmpty (Message res)); [|done].
    rewrite tagged_some, free_of_app, Hd. exact Hm.
  - destruct (nonEmpty (Message res')); [|done].
    rewrite tagged_some, free_of_app, Hd'. exact Hm'.
Qed.

Lemma nonEmpty_append (m t : string) : m ≠ "" → nonEmpty (Some (m +:+ t)) = Some (m +:+ t).
Proof. intros Hm. cbn. rewrite decide_False; [done|]. by destruct m. Qed.

(** X14: a result without sub-results whose message contains [$] is
    written exactly as a result with the part before the [$] as message and
    one sub-result with the part after it as status. *)
Theorem X14_message_with_separator_reads_as_sub_result
    (family : string) (run : TestRun) (ts : Timestamp)
    (test status m substatus name : string) :
  m ≠ "" →
  result_calls family run ts
    {| Test := test; Status := status; Message := Some (m +:+ "$" +:+ substatus);
       Subtests := [] |}
  = result_calls family run ts
      {| Test := test; Status := status; Message := Some m;
         Subtests := [ {| Name := name; SubStatus := substatus; SubMessage := None |} ] |}.
Proof.
  intros Hm. unfold result_calls, sub_call. cbn [Subtests Message length SubMessage fmap list_fmap].
  rewrite decide_True by done. rewrite decide_False by done.
  rewrite nonEmpty_append by done.
  replace (nonEmpty (Some m)) with (Some m)
    by (cbn; by rewrite decide_False).
  cbn. unfold cell. cbn. done.
Qed.

(** ** Scheduling *)

Lemma held_count ts : held ts = Z.of_nat (length (filter (λ t, holding t = true) ts)).
Proof.
  induction ts as [|t ts IH]; [done|]. cbn [held]. rewrite filter_cons. unfold units.
  destruct (holding t) eqn:Ht.
  - rewrite decide_True by done. cbn [length]. lia.
  - rewrite decide_False by done. lia.
Qed.

Lemma exec_app env s1 : ∀ s2 p,
  exec env (s1 ++ s2) p = exec env s1 p ≫= exec env s2.
Proof.
  induction s1 as [|who s1 IH]; intros s2 p; cbn; [done|].
  destruct (step env who p); cbn; [apply IH|done].
Qed.

(** X8: in every state the process can reach, the tasks between their
    [Acquire] and their [Release] are at most [numConcurrentRuns], and the
    semaphore's count is exactly what they and [main] hold. *)
Theorem X8_at_most_the_cap_in_flight (env : Env) (sched : list Tid) (p : Proc) :
  0 ≤ e_numConcurrentRuns env → exec env sched init = Some p →
  Z.of_nat (in_flight p) ≤ e_numConcurrentRuns env ∧
  cur (p_sem p) = Z.of_nat (in_flight p) + main_holds env p.
Proof.
  intros Hpool Hexec.
  destruct (sem_exec_inv env sched init p Hpool (init_sem_inv env) Hexec)
    as [Hs Hc Hl _ _].
  unfold in_flight. rewrite <- held_count. split; [|done].
  pose proof (main_holds_nonneg env Hpool p).
  unfold sem_sized in Hs. destruct (p_main p); try lia; rewrite Hs; cbn; lia.
Qed.

(** X11: with a positive batch size, a pool that is not negative and
    reports that decode without a nil result, no state the process can
    reach is a panic: the result loop dereferences no nil result, the log
    line of a bulk write never indexes an empty slice and the semaphore is
    never released more than held. *)
Theorem X11_no_panic (env : Env) (sched : list Tid) (p : Proc) :
  (0 < e_maxMutations env)%nat → 0 ≤ e_numConcurrentRuns env →
  (∀ data report, e_json_Unmarshal env data = Some report →
                  Forall is_Some (Results report)) →
  exec env sched init = Some p → p_status p ≠ Panicked.
Proof.
  intros Hmax Hpool Hpresent. revert p. induction sched as [|who sched IH] using rev_ind; intros p.
  - cbn. by intros [= <-].
  - rewrite exec_app. destruct (exec env sched init) as [q|] eqn:Hq; cbn; [|done].
    specialize (IH q eq_refl).
    destruct (step env who q) as [q'|] eqn:Hstep; cbn; [|done]. intros [= <-].
    unfold step in Hstep. destruct (p_status q) eqn:Hst; try done.
    destruct who as [| |i].
    + unfold step_main in Hstep.
      destruct (p_main q) as [| | |ts|ts runs [|run rest]|runs|runs|]; try done.
      * injection Hstep as <-. cbn. by rewrite Hst.
      * destruct (e_dsClientErr env); [by injection Hstep as <-|].
        destruct (e_btClientErr env); injection Hstep as <-; cbn; [done|by rewrite Hst].
      * injection Hstep as <-. cbn. by rewrite Hst.
      * destruct (getRuns _).2 as [[keys runs]|err]; injection Hstep as <-; cbn;
          [by rewrite Hst|done].
      * destruct (Acquire _ _ _); try done; injection Hstep as <-; cbn; by rewrite Hst.
      * injection Hstep as <-. cbn. by rewrite Hst.
      * by injection Hstep as <-.
    + unfold step_monitor in Hstep. destruct (p_monitor q); cbn in Hstep; [|done].
      destruct (monitor_tick _); injection Hstep as <-; cbn; [done|by rewrite Hst].
    + destruct (p_tasks q !! i) as [t|] eqn:Hi; unfold step_worker in Hstep;
        rewrite Hi in Hstep; cbn in Hstep; [|done].
      destruct (t_pc t) eqn:Hpc; try done.
      * destruct (Acquire _ _ _); injection Hstep as <-; cbn; by rewrite Hst.
      * destruct (task_body_total (e_maxMutations env) (e_family env) (e_ApplyBulk env)
                    (e_http_Get env) (e_json_Unmarshal env) (t_ts t) (t_run t) Hmax
                    Hpresent)
          as [st Hbody].
        unfold run_task in Hstep. rewrite Hbody in Hstep. injection Hstep as <-.
        cbn. by rewrite Hst.
      * destruct (release_does_not_panic env sched q i t st Hpool Hq Hst Hi Hpc)
          as (q'' & Hstep' & Hrun & _).
        unfold step, step_worker in Hstep'. rewrite Hst, Hi in Hstep'. cbn in Hstep'.
        rewrite Hpc in Hstep'. rewrite Hstep' in Hstep. injection Hstep as <-.
        by rewrite Hrun.
Qed.

Lemma wake_all_task woken : ∀ p i t,
  p_tasks p !! i = Some t →
  ∃ t', p_tasks (wake_all woken p) !! i = Some t' ∧ (t' = t ∨ t' = set_pc THolding t).
Proof.
  induction woken as [|who woken IH]; intros p i t Hi; cbn.
  - exists t. eauto.
  - destruct (IH p i t Hi) as (t1 & Ht1 & Hcase). fold (wake_all woken p).
    destruct who as [| |j]; cbn.
    + exists t1. split; [|done]. by destruct (p_main _).
    + by exists t1.
    + destruct (decide (j = i)) as [->|Hne].
      * exists (set_pc THolding t1). rewrite list_lookup_alter_eq, Ht1. split; [done|].
        right. by destruct Hcase as [->| ->].
      * exists t1. by rewrite list_lookup_alter_ne.
Qed.

Lemma wake_all_drained woken p : drained p = true → drained (wake_all woken p) = true.
Proof.
  intros Hd. induction woken as [|who woken IH]; cbn; [done|]. fold (wake_all woken p).
  destruct who as [| |j]; cbn; [|done|exact IH].
  unfold drained in *. destruct (p_main (wake_all woken p)) eqn:E; cbn; rewrite ?E; done.
Qed.

Lemma step_drained env who p p' :
  drained p = true → step env who p = Some p' → drained p' = true.
Proof.
  unfold drained, step. intros Hd. destruct (p_status p); try done.
  destruct who as [| |i].
  - unfold step_main. destruct (p_main p); try done. by intros [= <-].
  - unfold step_monitor. destruct (p_monitor p); cbn; [|done].
    destruct (monitor_tick _); by intros [= <-].
  - unfold step_worker. destruct (p_tasks p !! i) as [t|]; cbn; [|done].
    destruct (t_pc t); try done.
    + destruct (Acquire _ _ _); by intros [= <-].
    + destruct (run_task _ _); by intros [= <-].
    + destruct (Release _ _) as [[s woken]|]; intros [= <-]; [|done].
      by apply wake_all_drained.
Qed.

Lemma step_idle env who p p' i t :
  step env who p = Some p' → p_tasks p !! i = Some t → idle t = true →
  ∃ t', p_tasks p' !! i = Some t' ∧ t_run t' = t_run t ∧
        (idle t' = true ∨ t_pc t' = THolding).
Proof.
  unfold step. intros Hstep Hi Hidle. destruct (p_status p); try done.
  assert (Hsame : ∃ t', p_tasks p !! i = Some t' ∧ t_run t' = t_run t ∧
                        (idle t' = true ∨ t_pc t' = THolding)) by (exists t; eauto).
  destruct who as [| |j].
  - unfold step_main in Hstep.
    destruct (p_main p) as [| | |ts|ts runs [|run rest]|runs|runs|]; try done.
    + by injection Hstep as <-.
    + destruct (e_dsClientErr env); [by injection Hstep as <-|].
      destruct (e_btClientErr env); by injection Hstep as <-.
    + by injection Hstep as <-.
    + destruct (getRuns _).2 as [[keys runs]|err]; by injection Hstep as <-.
    + destruct (Acquire _ _ _); try done; by injection Hstep as <-.
    + injection Hstep as <-. cbn. exists t. split; [by apply lookup_app_l_Some|eauto].
    + by injection Hstep as <-.
  - unfold step_monitor in Hstep. destruct (p_monitor p); cbn in Hstep; [|done].
    destruct (monitor_tick _); by injection Hstep as <-.
  - unfold step_worker in Hstep.
    destruct (p_tasks p !! j) as [tj|] eqn:Hj; cbn in Hstep; [|done].
    assert (Halter : ∀ pc q, p_tasks q = p_tasks p →
              (j = i → pc = THolding ∨ pc = TWaiting) →
              ∃ t', p_tasks (set_task j pc q) !! i = Some t' ∧ t_run t' = t_run t ∧
                    (idle t' = true ∨ t_pc t' = THolding)).
    { intros pc q Hq Hpc. cbn. rewrite Hq. destruct (decide (j = i)) as [->|Hne].
      - exists (set_pc pc t). rewrite list_lookup_alter_eq, Hi. split; [done|].
        split; [done|]. destruct (Hpc eq_refl) as [-> | ->]; [by right|by left].
      - exists t. by rewrite list_lookup_alter_ne; eauto. }
    assert (Hother : j = i → tj = t) by (intros ->; congruence).
    destruct (t_pc tj) eqn:Hpc; try done.
    + destruct (Acquire _ _ _); injection Hstep as <-; apply Halter; eauto.
    + destruct (run_task _ _); injection Hstep as <-; [|done].
      apply Halter; [done|]. intros Heq. rewrite (Hother Heq) in Hpc.
      unfold idle in Hidle. by rewrite Hpc in Hidle.
    + destruct (Release _ _) as [[s woken]|]; injection Hstep as <-; [|done].
      assert (j ≠ i).
      { intros Heq. rewrite (Hother Heq) in Hpc. unfold idle in Hidle.
        by rewrite Hpc in Hidle. }
      destruct (wake_all_task woken (set_task j (TDone st) (set_sem s p)) i t)
        as (t' & Ht' & Hcase).
      { cbn. by rewrite list_lookup_alter_ne. }
      exists t'. split; [done|]. destruct Hcase as [-> | ->]; eauto.
Qed.

(** X9: once [main]'s acquisition of the whole pool has returned, it stays
    so, and a task that is not finished then is never granted a permit:
    whatever runs afterwards it stays before its fetch and writes
    nothing. *)
Theorem X9_tasks_pending_at_drain_never_run
    (env : Env) (sched sched' : list Tid) (p p' : Proc) :
  0 ≤ e_numConcurrentRuns env →
  exec env sched init = Some p → drained p = true → exec env sched' p = Some p' →
  drained p' = true ∧
  ∀ i t, p_tasks p !! i = Some t → task_finished t = false →
    ∃ t', p_tasks p' !! i = Some t' ∧ t_run t' = t_run t ∧ idle t' = true ∧
          task_calls t' = [].
Proof.
  intros Hpool Hexec Hd. revert p' . induction sched' as [|who sched' IH] using rev_ind;
    intros p'.
  - cbn. intros [= <-]. split; [done|]. intros i t Hi Hfin.
    pose proof (drained_no_task_in_flight env sched p Hpool Hexec Hd) as Hnone.
    rewrite Forall_forall in Hnone.
    assert (Hh : holding t = false).
    { apply Hnone. by eapply list_elem_of_lookup_2. }
    exists t. unfold idle, holding, task_finished, task_calls in *.
    by destruct (t_pc t).
  - rewrite exec_app. destruct (exec env sched' p) as [q|] eqn:Hq; cbn; [|done].
    destruct (IH q eq_refl) as [Hdq Htasks].
    destruct (step env who q) as [q'|] eqn:Hstep; cbn; [|done]. intros [= <-].
    pose proof (step_drained env who q q' Hdq Hstep) as Hdq'.
    split; [done|]. intros i t Hi Hfin.
    destruct (Htasks i t Hi Hfin) as (t1 & Hi1 & Hrun1 & Hidle1 & _).
    destruct (step_idle env who q q' i t1 Hstep Hi1 Hidle1) as (t' & Hi' & Hrun' & Hcase).
    assert (Hreach : exec env (sched ++ sched' ++ [who]) init = Some q').
    { rewrite exec_app, Hexec. cbn. rewrite exec_app, Hq. cbn. by rewrite Hstep. }
    pose proof (drained_no_task_in_flight env _ q' Hpool Hreach Hdq') as Hnone.
    rewrite Forall_forall in Hnone.
    assert (Hh : holding t' = false).
    { apply Hnone. by eapply list_elem_of_lookup_2. }
    exists t'. split; [done|]. split; [congruence|].
    destruct Hcase as [Hidle'|Hpc].
    + split; [done|]. unfold idle, task_calls in *. by destruct (t_pc t').
    + unfold holding in Hh. by rewrite Hpc in Hh.
Qed.



Lemma wake_all_logs woken p : p_logs (wake_all woken p) = p_logs p.
Proof.
  induction woken as [|who woken IH]; cbn; [done|]. fold (wake_all woken p).
  destruct who as [| |j]; cbn; [by destruct (p_main _)|done|done].
Qed.

Lemma wake_all_monitor woken p : p_monitor (wake_all woken p) = p_monitor p.
Proof.
  induction woken as [|who woken IH]; cbn; [done|]. fold (wake_all woken p).
  destruct who as [| |j]; cbn; [by destruct (p_main _)|done|done].
Qed.

(** Waking moves [main] from line 221 waiting to line 222, nothing else. *)
Lemma wake_all_main woken p :
  p_main (wake_all woken p) = p_main p ∨
  ∃ runs, p_main p = MDrain runs ∧ p_main (wake_all woken p) = MReport runs.
Proof.
  induction woken as [|who woken IH]; cbn; [by left|]. fold (wake_all woken p).
  destruct who as [| |j]; cbn; [|done|done].
  destruct (p_main (wake_all woken p)) eqn:E; cbn; rewrite ?E; try done.
  destruct IH as [IH|(runs' & Hd & Hr)]; [|congruence]. right. eauto.
Qed.






(** ** The monitor in the process *)

Lemma mon_inv_quiet env p :
  p_status p = Running → mon_inv env p → FatalOutOfMemory ∉ p_logs p.
Proof.
  unfold mon_inv. intros Hst [_ Hinv] Hin. destruct (p_monitor p); [|by destruct Hinv].
  destruct Hinv as (_ & _ & Hoom). destruct (Hoom Hin). congruence.
Qed.

Lemma mon_inv_frame env p p' :
  p_status p = Running → mon_inv env p → p_monitor p' = p_monitor p →
  (p_main p' = MStart → p_main p = MStart) →
  (p_logs p' = p_logs p ∨
   ∃ line, p_logs p' = p_logs p ++ [line] ∧ monitor_sample line = None ∧
           line ≠ FatalOutOfMemory) →
  mon_inv env p'.
Proof.
  intros Hst Hinv Hmon Hmain Hlogs. pose proof (mon_inv_quiet env p Hst Hinv) as Hquiet.
  assert (Homap : omap monitor_sample (p_logs p') = omap monitor_sample (p_logs p)).
  { destruct Hlogs as [->|(line & -> & Hline & _)]; [done|].
    rewrite omap_app. cbn. rewrite Hline. by rewrite app_nil_r. }
  assert (Hquiet' : FatalOutOfMemory ∉ p_logs p').
  { destruct Hlogs as [->|(line & -> & _ & Hne)]; [done|].
    intros [Hin|Hin%list_elem_of_singleton]%elem_of_app; [done|congruence]. }
  destruct Hinv as [Hstart Hinv]. split; [rewrite Hmon; by intros ?%Hmain%Hstart|].
  rewrite Hmon, Homap. destruct (p_monitor p).
  - destruct Hinv as (Hs & Hb & _). done.
  - destruct Hinv as (Hs & _). done.
Qed.

Local Ltac mon_frame env p :=
  apply (mon_inv_frame env p); cbn;
  [done|done|done|done
  |first [by left | right; eexists; split_and!; [reflexivity|done|done]]].

Lemma step_mon_inv env who p p' : mon_inv env p → step env who p = Some p' → mon_inv env p'.
Proof.
  intros Hinv. unfold step. destruct (p_status p) eqn:Hst; try done.
  pose proof (mon_inv_quiet env p Hst Hinv) as Hquiet.
  destruct who as [| |i].
  - unfold step_main.
    destruct (p_main p) as [| | |ts|ts runs [|run rest]|runs|runs|] eqn:Hmain; try done.
    + intros [= <-]. destruct Hinv as [Hstart Hinv]. rewrite (Hstart Hmain) in Hinv.
      destruct Hinv as [Hs _]. split; cbn; [done|]. split_and!; [done|intros; lia|done].
    + destruct (e_dsClientErr env) as [err|].
      { intros [= <-]. mon_frame env p. }
      destruct (e_btClientErr env) as [err|]; intros [= <-];
        mon_frame env p.
    + intros [= <-]. mon_frame env p.
    + destruct (getRuns _).2 as [[keys runs]|err]; intros [= <-];
        mon_frame env p.
    + destruct (Acquire _ _ _); try done; intros [= <-];
        mon_frame env p.
    + intros [= <-]. mon_frame env p.
    + intros [= <-]. mon_frame env p.
  - unfold step_monitor. destruct (p_monitor p) as [k|] eqn:Hmon; cbn; [|done].
    destruct Hinv as [Hstart Hinv]. rewrite Hmon in Hinv, Hstart.
    destruct Hinv as (Hs & Hb & _).
    unfold monitor_tick. case_decide as Hh; intros [= <-]; split; cbn -[seq].
    + by rewrite Hmon.
    + rewrite Hmon, omap_app. cbn. rewrite app_nil_r. done.
    + intros Hm. by apply Hstart in Hm.
    + rewrite seq_S, fmap_app, omap_app, Hs. cbn. split_and!; [done| |].
      * intros j Hj. destruct (decide (j = k)) as [->|]; [lia|apply Hb; lia].
      * intros [Hin|Hin%list_elem_of_singleton]%elem_of_app; done.
  - unfold step_worker. destruct (p_tasks p !! i) as [t|] eqn:Hi; cbn; [|done].
    destruct (t_pc t) eqn:Hpc; try done.
    + destruct (Acquire _ _ _); intros [= <-]; mon_frame env p.
    + destruct (run_task _ _); intros [= <-]; mon_frame env p.
    + destruct (Release _ _) as [[s woken]|]; intros [= <-].
      * apply (mon_inv_frame env p); [done|done|by rewrite wake_all_monitor| |].
        -- intros Hm. destruct (wake_all_main woken (set_task i (TDone st) (set_sem s p)))
             as [Heq|(runs & _ & Heq)]; rewrite Heq in Hm; done.
        -- left. by rewrite wake_all_logs.
      * mon_frame env p.
Qed.

Lemma exec_mon_inv env sched : ∀ p p',
  mon_inv env p → exec env sched p = Some p' → mon_inv env p'.
Proof.
  induction sched as [|who sched IH]; intros p p' Hp; cbn; [by intros [= <-]|].
  destruct (step env who p) as [p1|] eqn:Hstep; cbn; [|done].
  apply IH. by eapply step_mon_inv.
Qed.

Lemma init_mon_inv env : mon_inv env init.
Proof. split; cbn; [done|]. split; [done|]. by intros ?%elem_of_nil. Qed.

(** X12: after [k] ticks of the monitor the process log holds, in order,
    the first [k] heap samples, all within the threshold, and the loop over
    them is alive; an out-of-memory line is logged only by a process that
    is over, for a sample above the threshold. *)
Theorem X12_monitor_log_follows_the_samples (env : Env) (sched : list Tid) (p : Proc) (k : nat) :
  exec env sched init = Some p → p_monitor p = Some k →
  omap monitor_sample (p_logs p) = e_heapAlloc env <$> seq 0 k ∧
  (∀ j, (j < k)%nat → e_heapAlloc env j ≤ maxHeapAlloc) ∧
  (monitor (e_heapAlloc env <$> seq 0 k)).2 = true ∧
  (FatalOutOfMemory ∈ p_logs p →
   p_status p = Fataled ∧ e_heapAlloc env k > maxHeapAlloc).
Proof.
  intros Hexec Hmon.
  destruct (exec_mon_inv env sched init p (init_mon_inv env) Hexec) as [_ Hinv].
  rewrite Hmon in Hinv. destruct Hinv as (Hs & Hb & Hoom). split_and!; try done.
  rewrite monitor_below; [done|]. apply Forall_fmap, Forall_forall.
  intros j Hj%elem_of_seq. cbn. apply Hb. lia.
Qed.

(** ** The further theorems at concrete inputs *)

Lemma X1_slices_witness :
  (0 < 2)%nat ∧
  ∃ st st', set_all 2 always_ok sample_calls (empty_state []) = Some st ∧
    finish always_ok st = Some st' ∧
    ∀ k, calls st' !! k =
         if decide (k * 2 < length sample_calls)%nat
         then Some (call_of (take 2 (drop (k * 2) sample_calls)))
         else None.
Proof.
  split; [lia|].
  apply (X1_bulk_calls_are_consecutive_slices 2 always_ok sample_calls []). lia.
Defined.

Lemma X2_store_witness :
  (0 < 2)%nat ∧
  ∃ st st',
    set_all 2 always_ok sample_calls (empty_state []) ≫= finish always_ok = Some st ∧
    set_all 2 always_failing sample_calls (empty_state []) ≫= finish always_failing
      = Some st' ∧
    calls st = calls st' ∧
    logs st = [] ++ (outcome_line always_ok <$> calls st) ∧
    logs st' = [] ++ (outcome_line always_failing <$> calls st').
Proof.
  split; [lia|].
  apply (X2_store_errors_change_only_the_log 2 always_ok always_failing sample_calls []).
  lia.
Defined.

Lemma X3_task_witness :
  ∃ st, task_body 2 "runs" always_ok (e_http_Get env1) (e_json_Unmarshal env1) 1000 run1
        = Some st ∧
    concat (bc_rows <$> calls st) = ["/a.html"; "/b.html"] ∧
    logs st = InfoGathering 2 :: (outcome_line always_ok <$> calls st).
Proof.
  destruct (X3_task_writes_the_report_in_order 2 "runs" always_ok (e_http_Get env1)
              (e_json_Unmarshal env1) 1000 run1 "{}" report1)
    as (st & Hbody & Hrows & _ & _ & Hlogs).
  - lia.
  - reflexivity.
  - reflexivity.
  - discriminate.
  - repeat constructor; by eexists.
  - exists st. split_and!; [exact Hbody|exact Hrows|exact Hlogs].
Defined.

Lemma X4_cells_witness :
  ∃ st, task_body 2 "runs" always_ok (e_http_Get env1) (e_json_Unmarshal env1) 1000 run1
        = Some st ∧
    Forall (λ call, Forall (λ m : Mutation, ∃ v, m = [SetCell "runs" (colID run1) 1000 v])
                           (bc_muts call)) (calls st).
Proof.
  eexists. split; [reflexivity|].
  apply (X4_every_mutation_sets_one_cell_of_the_run_column 2 "runs" always_ok
           (e_http_Get env1) (e_json_Unmarshal env1) 1000 run1); [lia|reflexivity].
Defined.

Lemma X5_identity_witness :
  colID run1 = colID run1_mirror ∧
  BrowserName run1 = BrowserName run1_mirror ∧
  FullRevisionHash run1 = FullRevisionHash run1_mirror.
Proof.
  split; [reflexivity|].
  destruct (X5_column_key_determines_identity run1 run1_mirror)
    as (Hb & _ & _ & _ & Hh & _).
  - repeat split; reflexivity.
  - repeat split; reflexivity.
  - reflexivity.
  - by split.
Defined.

Lemma X8_cap_witness :
  ∃ p, exec env1 [Main; Main; Main; Main; Main; Main; Worker 0; Worker 1] init = Some p ∧
    in_flight p = 2%nat ∧
    Z.of_nat (in_flight p) ≤ e_numConcurrentRuns env1 ∧
    cur (p_sem p) = Z.of_nat (in_flight p) + main_holds env1 p.
Proof.
  destruct (exec env1 [Main; Main; Main; Main; Main; Main; Worker 0; Worker 1] init)
    as [p|] eqn:Hp; [|by vm_compute in Hp].
  exists p. split; [reflexivity|]. split.
  - vm_compute in Hp. injection Hp as <-. reflexivity.
  - apply (X8_at_most_the_cap_in_flight env1
             [Main; Main; Main; Main; Main; Main; Worker 0; Worker 1] p);
      [by vm_compute|exact Hp].
Defined.

Lemma X9_drain_witness :
  ∃ p', exec env1 [Main] (set_main (MReport [run1; run2])
                            (set_tasks [ {| t_run := run1; t_ts := 1000; t_pc := TSpawned |};
                                         {| t_run := run2; t_ts := 1000; t_pc := TSpawned |} ]
                               (set_sem {| size := 100; cur := 100; waiters := [] |}
                                  (set_clock_reads 1 (set_monitor (Some 0%nat) init)))))
        = Some p' ∧
    drained p' = true ∧ idle <$> p_tasks p' = [true; true].
Proof.
  set (p := set_main _ _).
  assert (Hp : exec env1 [Main; Main; Main; Main; Main; Main; Main] init = Some p)
    by (by vm_compute).
  destruct (exec env1 [Main] p) as [p'|] eqn:Hp'; [|by vm_compute in Hp'].
  exists p'. split; [reflexivity|].
  destruct (X9_tasks_pending_at_drain_never_run env1
              [Main; Main; Main; Main; Main; Main; Main] [Main] p p') as [Hd Htasks].
  - by vm_compute.
  - exact Hp.
  - reflexivity.
  - exact Hp'.
  - split; [exact Hd|]. vm_compute in Hp'. injection Hp' as <-. reflexivity.
Defined.


Lemma X11_no_panic_witness :
  ∃ p, exec env1 full_schedule init = Some p ∧ p_status p ≠ Panicked.
Proof.
  destruct (exec env1 full_schedule init) as [p|] eqn:Hp; [|by vm_compute in Hp].
  exists p. split; [reflexivity|].
  apply (X11_no_panic env1 full_schedule p); [|by vm_compute| |exact Hp].
  - cbn [e_maxMutations env1]. unfold maxMutationsPerBatch. lia.
  - intros data report [= <-]. repeat constructor; by eexists.
Defined.

Lemma X12_monitor_witness :
  ∃ p, exec env1 [Main; Monitor; Main; Monitor] init = Some p ∧
    p_monitor p = Some 2%nat ∧
    omap monitor_sample (p_logs p) = e_heapAlloc env1 <$> seq 0 2.
Proof.
  destruct (exec env1 [Main; Monitor; Main; Monitor] init) as [p|] eqn:Hp;
    [|by vm_compute in Hp].
  exists p. split; [reflexivity|].
  assert (Hk : p_monitor p = Some 2%nat).
  { vm_compute in Hp. injection Hp as <-. reflexivity. }
  split; [exact Hk|].
  by destruct (X12_monitor_log_follows_the_samples env1
                 [Main; Monitor; Main; Monitor] p 2 Hp Hk).
Defined.

Lemma X13_decode_witness :
  c_value (sub_call "runs" run1 1000 result_a sub_a)
  = c_value (sub_call "other" run2 7 result_z sub_z) ∧
  Status result_a = Status result_z ∧
  nonEmpty (Message result_a) = nonEmpty (Message result_z) ∧
  SubStatus sub_a = SubStatus sub_z ∧
  nonEmpty (SubMessage sub_a) = nonEmpty (SubMessage sub_z).
Proof.
  split; [reflexivity|].
  apply (X13_value_decodes_without_separators "runs" "other" run1 run2 1000 7
           result_a result_z sub_a sub_z).
  - repeat split; reflexivity.
  - repeat split; reflexivity.
  - reflexivity.
Defined.

Lemma X14_ambiguity_witness :
  result_calls "runs" run1 1000
    {| Test := "/b.html"; Status := "ERROR"; Message := Some ("boom" +:+ "$" +:+ "PASS");
       Subtests := [] |}
  = result_calls "runs" run1 1000
      {| Test := "/b.html"; Status := "ERROR"; Message := Some "boom";
         Subtests := [ {| Name := "s1"; SubStatus := "PASS"; SubMessage := None |} ] |}.
Proof.
  apply (X14_message_with_separator_reads_as_sub_result
           "runs" run1 1000 "/b.html" "ERROR" "boom" "PASS" "s1").
  discriminate.
Defined.

Lemma X15_nil_witness :
  ∃ p, exec env_nil [Main; Main; Main; Main; Main; Worker 0; Worker 0] init = Some p ∧
       p_status p = Panicked.
Proof.
  destruct (exec env_nil [Main; Main; Main; Main; Main; Worker 0] init) as [p|] eqn:Hp;
    [|by vm_compute in Hp].
  assert (Hmax : (0 < e_maxMutations env_nil)%nat)
    by (cbn [e_maxMutations env_nil]; unfold maxMutationsPerBatch; lia).
  destruct (X15_nil_result_is_the_one_panic_of_a_task env_nil Hmax) as [_ Hstep].
  destruct (Hstep p 0%nat {| t_run := run1; t_ts := 1000; t_pc := THolding |} "{}" report_nil)
    as (p' & Hp' & Hpanic).
  - vm_compute in Hp. injection Hp as <-. reflexivity.
  - vm_compute in Hp. injection Hp as <-. reflexivity.
  - reflexivity.
  - reflexivity.
  - reflexivity.
  - right. left.
  - exists p'. split; [|exact Hpanic].
    change [Main; Main; Main; Main; Main; Worker 0; Worker 0]
      with ([Main; Main; Main; Main; Main; Worker 0] ++ [Worker 0]).
    rewrite exec_app, Hp. cbn. by rewrite Hp'.
Defined.
